(** * FuelWise: savings calculator, validation, chart series, the
      press-and-hold stepper and the two requests, as a shallow embedding
      of the TypeScript sources ([utils/calculations.ts], [types.ts],
      [App.tsx]).

    JavaScript numbers are IEEE 754 binary64 numbers.  They are modelled
    by the standard library's specification of floating-point arithmetic
    ([SpecFloat], with a precision of 53 bits and [emax = 1024]): every
    operation rounds to the nearest number, ties to even, overflows to
    an infinity and underflows through the subnormal numbers to a signed
    zero, as the hardware does. *)

From Stdlib Require Import ZArith QArith Qround Qabs Qpower Lia Lqa String Ascii List
  Bool SpecFloat DecimalString.
From stdpp Require Import gmap.
Import ListNotations.

(** ** JavaScript numbers *)

Module Num.

Local Open Scope Q_scope.

Definition prec : Z := 53.
Definition emax : Z := 1024.

(** [S754_zero s] is [+0] or [-0], [S754_infinity s] an infinity,
    [S754_nan] is [NaN], and [S754_finite s m e] is the number
    [(-1)^s * m * 2^e]; [s] is [true] for the negative ones. *)
Definition number : Type := spec_float.

Definition NaN : number := S754_nan.
Definition Inf (neg : bool) : number := S754_infinity neg.
Definition zero (neg : bool) : number := S754_zero neg.
Definition NegZero : number := S754_zero true.

Definition Qltb (a b : Q) : bool := negb (Qle_bool b a).

Definition isNaN (x : number) : bool :=
  match x with S754_nan => true | _ => false end.

Definition isInf (x : number) : bool :=
  match x with S754_infinity _ => true | _ => false end.

Definition isZero (x : number) : bool :=
  match x with S754_zero _ => true | _ => false end.

Definition isFinite (x : number) : bool :=
  match x with S754_nan | S754_infinity _ => false | _ => true end.

(** The sign bit: [true] for negative numbers, [-0] and [-Infinity]. *)
Definition sign (x : number) : bool :=
  match x with
  | S754_nan => false
  | S754_infinity s => s
  | S754_zero s => s
  | S754_finite s _ _ => s
  end.


(** Unary minus, and [x + y], [x - y], [x * y], [x / y]. *)
Definition neg (x : number) : number := SFopp x.
Definition add (x y : number) : number := SFadd prec emax x y.
Definition sub (x y : number) : number := SFsub prec emax x y.
Definition mul (x y : number) : number := SFmul prec emax x y.
Definition div (x y : number) : number := SFdiv prec emax x y.

(** The number nearest to the rational [q]: the quotient of its
    numerator by its denominator, rounded once. *)
Definition of_Q (q : Q) : number :=
  match Qnum q with
  | Z0 => S754_zero false
  | Zpos n => div (S754_finite false n 0) (S754_finite false (Qden q) 0)
  | Zneg n => div (S754_finite true n 0) (S754_finite false (Qden q) 0)
  end.

Definition of_Z (z : Z) : number := of_Q (inject_Z z).

(** The value of a finite number. *)
Definition to_Q (x : number) : Q :=
  match x with
  | S754_finite s m e =>
      inject_Z (if s then Z.neg m else Z.pos m) * Qpower (inject_Z 2) e
  | _ => 0
  end.

(** Numeric comparison; [None] when an operand is [NaN].  The two zeros
    compare equal. *)
Definition cmp (x y : number) : option comparison := SFcompare x y.

(** [x < y], [x <= y], [x > y], [x >= y], [x === y] *)
Definition lt (x y : number) : bool :=
  match cmp x y with Some Lt => true | _ => false end.
Definition le (x y : number) : bool :=
  match cmp x y with Some Lt | Some Eq => true | _ => false end.
Definition gt (x y : number) : bool := lt y x.
Definition ge (x y : number) : bool := le y x.
Definition eqn (x y : number) : bool :=
  match cmp x y with Some Eq => true | _ => false end.

(** [Object.is(x, y)]: the same number; [NaN] is [NaN], and [+0] is not
    [-0]. *)
Definition Object_is (x y : number) : bool :=
  match x, y with
  | S754_nan, S754_nan => true
  | S754_zero a, S754_zero b => Bool.eqb a b
  | S754_infinity a, S754_infinity b => Bool.eqb a b
  | S754_finite a m e, S754_finite b n f =>
      Bool.eqb a b && (m =? n)%positive && (e =? f)%Z
  | _, _ => false
  end.

(** [Math.max(x, y)]: [NaN] if either argument is; [+0] is larger than
    [-0]. *)
Definition Math_max (x y : number) : number :=
  match cmp x y with
  | None => NaN
  | Some Gt => x
  | Some Lt => y
  | Some Eq => if sign x then y else x
  end.

(** [Number(x.toFixed(digits))] (equally [parseFloat(x.toFixed(digits))]).
    [toFixed] takes the integer [n] for which [n / 10^digits] is nearest
    to the magnitude of [x], the larger one of two, and prints
    [n / 10^digits] with a minus sign in front exactly when [x < 0];
    reading the text back gives the number nearest to [n / 10^digits],
    and [-0] when a negative number has [n = 0].  From [1e21] on
    [toFixed] prints [x] as [toString] does, and reading that back gives
    [x]. *)
Definition toFixedNum (digits : nat) (x : number) : number :=
  match x with
  | S754_nan => NaN
  | S754_infinity s => Inf s
  | S754_zero _ => zero false
  | S754_finite s m e =>
      let q := to_Q (S754_finite false m e) in
      if Qle_bool (inject_Z (10 ^ 21)) q then x
      else
        let scale := inject_Z (10 ^ Z.of_nat digits) in
        let n := Qfloor (q * scale + (1 # 2)) in
        if s then
          if (n =? 0)%Z then NegZero else of_Q (- (inject_Z n / scale))
        else of_Q (inject_Z n / scale)
  end.

(** [x > 0 && Number.isFinite(x)] *)
Definition positiveFinite (x : number) : bool := gt x (of_Z 0) && isFinite x.

(** [x] is a zero, a negative number or [-Infinity]. *)
Definition nonPositive (x : number) : bool :=
  negb (isNaN x) && (sign x || isZero x).


End Num.

Export Num.

(** Decimal literals, as [1.699]: [dec 1699 3] is the number nearest to
    [1699 / 10^3]. *)
Definition dec (mantissa : Z) (decimals : nat) : number :=
  of_Q (inject_Z mantissa / inject_Z (10 ^ Z.of_nat decimals)).

(** ** The data model ([types.ts]) *)

Record FuelData : Type := mkFuelData {
  priceOnRoad : number;
  priceOffRoad : number;
  litersToRefuel : number;
  consumptionKmL : number
}.

Record CalculationResult : Type := mkCalculationResult {
  savingsEuro : number;
  extraKms : number;
  maxOneWayDistance : number;
  costPerKm : number
}.

(** ** [calculateSavings] ([utils/calculations.ts]) *)

Definition calculateSavings (data : FuelData) : CalculationResult :=
  let '(mkFuelData priceOnRoad priceOffRoad litersToRefuel consumptionKmL) := data in
  let savingsEuro := mul (sub priceOnRoad priceOffRoad) litersToRefuel in
  let costPerKm := div priceOffRoad consumptionKmL in
  let extraKms := div savingsEuro costPerKm in
  let maxOneWayDistance := div extraKms (of_Z 2) in
  {| savingsEuro := Math_max (of_Z 0) savingsEuro;
     extraKms := Math_max (of_Z 0) extraKms;
     maxOneWayDistance := Math_max (of_Z 0) maxOneWayDistance;
     costPerKm := costPerKm |}.

(** The record the application starts with ([App.tsx]). *)
Definition initialData : FuelData :=
  {| priceOnRoad := dec 1699 3;
     priceOffRoad := dec 1599 3;
     litersToRefuel := of_Z 25;
     consumptionKmL := of_Z 18 |}.

(** The formulas as the specification words them: each quantity is
    computed from the clamped one before it. *)
Definition calculateSavings_claimed (data : FuelData) : CalculationResult :=
  let savingsEuro :=
    Math_max (of_Z 0)
      (mul (sub (priceOnRoad data) (priceOffRoad data)) (litersToRefuel data)) in
  let costPerKm := div (priceOffRoad data) (consumptionKmL data) in
  let extraKms := Math_max (of_Z 0) (div savingsEuro costPerKm) in
  let maxOneWayDistance := Math_max (of_Z 0) (div extraKms (of_Z 2)) in
  {| savingsEuro := savingsEuro; extraKms := extraKms;
     maxOneWayDistance := maxOneWayDistance; costPerKm := costPerKm |}.

(** ** Strings: the regular expressions and [parseFloat] *)

Module Str.

Local Open Scope string_scope.
Local Open Scope char_scope.

(** Regular expressions over character classes, matched by derivatives.
    [test] models [RegExp.prototype.test] for a pattern anchored with
    [^] and [$]. *)
Inductive regex : Type :=
  | Void
  | Eps
  | Class (p : ascii -> bool)
  | Seq (r1 r2 : regex)
  | Alt (r1 r2 : regex)
  | Star (r : regex).

Definition Opt (r : regex) : regex := Alt Eps r.

Fixpoint nullable (r : regex) : bool :=
  match r with
  | Void => false
  | Eps => true
  | Class _ => false
  | Seq r1 r2 => nullable r1 && nullable r2
  | Alt r1 r2 => nullable r1 || nullable r2
  | Star _ => true
  end.

Fixpoint deriv (c : ascii) (r : regex) : regex :=
  match r with
  | Void => Void
  | Eps => Void
  | Class p => if p c then Eps else Void
  | Seq r1 r2 =>
      if nullable r1 then Alt (Seq (deriv c r1) r2) (deriv c r2)
      else Seq (deriv c r1) r2
  | Alt r1 r2 => Alt (deriv c r1) (deriv c r2)
  | Star r1 => Seq (deriv c r1) (Star r1)
  end.

Fixpoint test (r : regex) (s : string) : bool :=
  match s with
  | EmptyString => nullable r
  | String c s' => test (deriv c r) s'
  end.

Definition isChar (c : ascii) : ascii -> bool := Ascii.eqb c.

(** [[0-9]] *)
Definition isDigit (c : ascii) : bool :=
  (48 <=? N_of_ascii c)%N && (N_of_ascii c <=? 57)%N.

Definition digitValue (c : ascii) : Z := Z.of_N (N_of_ascii c) - 48.

(** [/^-?[0-9]*[.,]?[0-9]*$/] *)
Definition numericPattern : regex :=
  Seq (Opt (Class (isChar "-")))
   (Seq (Star (Class isDigit))
     (Seq (Opt (Class (fun c => isChar "." c || isChar "," c)))
          (Star (Class isDigit)))).

(** [s.replace(from, to)] with one-character strings: only the first
    occurrence is replaced. *)
Fixpoint replaceFirst (from to : ascii) (s : string) : string :=
  match s with
  | EmptyString => EmptyString
  | String c s' =>
      if Ascii.eqb c from then String to s' else String c (replaceFirst from to s')
  end.

(** [s.replace(/[^...]/g, '')]: every character outside the class is
    removed. *)
Fixpoint keepOnly (p : ascii -> bool) (s : string) : string :=
  match s with
  | EmptyString => EmptyString
  | String c s' => if p c then String c (keepOnly p s') else keepOnly p s'
  end.

(** [[0-9,.]] *)
Definition isPriceChar (c : ascii) : bool :=
  isDigit c || isChar "," c || isChar "." c.

(** White space: tab, line feed, vertical tab, form feed, carriage
    return and space.  Strings are sequences of bytes, and only the
    white space of ASCII is recognised; the texts that the program trims
    or parses hold digits, signs, commas and dots only. *)
Definition isWhite (c : ascii) : bool :=
  let n := N_of_ascii c in
  ((9 <=? n)%N && (n <=? 13)%N) || (n =? 32)%N.

Fixpoint trimStart (s : string) : string :=
  match s with
  | String c s' => if isWhite c then trimStart s' else s
  | EmptyString => EmptyString
  end.

Fixpoint trimEnd (s : string) : string :=
  match s with
  | EmptyString => EmptyString
  | String c s' =>
      match trimEnd s' with
      | EmptyString => if isWhite c then EmptyString else String c EmptyString
      | t => String c t
      end
  end.

Definition trim (s : string) : string := trimEnd (trimStart s).

(** No character of [s] is white space. *)
Fixpoint noWhite (s : string) : bool :=
  match s with
  | EmptyString => true
  | String c s' => negb (isWhite c) && noWhite s'
  end.

(** The longest run of digits at the front of [s], most significant
    first, and the rest of [s]. *)
Fixpoint takeDigits (s : string) : list Z * string :=
  match s with
  | String c s' =>
      if isDigit c then
        let '(ds, rest) := takeDigits s' in (digitValue c :: ds, rest)
      else ([], s)
  | EmptyString => ([], EmptyString)
  end.

Definition digitsValue (ds : list Z) : Z :=
  fold_left (fun acc d => 10 * acc + d)%Z ds 0%Z.

(** The exponent part [[eE][+-]?[0-9]+] at the front of [s], or [0] when
    there is none. *)
Definition exponentPart (s : string) : Z :=
  match s with
  | String c s' =>
      if isChar "e" c || isChar "E" c then
        let '(sgn, s'') :=
          match s' with
          | String "-" r => ((-1)%Z, r)
          | String "+" r => (1%Z, r)
          | _ => (1%Z, s')
          end in
        match takeDigits s'' with
        | ([], _) => 0%Z
        | (ds, _) => (sgn * digitsValue ds)%Z
        end
      else 0%Z
  | EmptyString => 0%Z
  end.

Local Open Scope Q_scope.

Definition pow10 (e : Z) : Q := Qpower (inject_Z 10) e.

(** [parseFloat(s)]: leading white space is skipped and the longest
    prefix that is a decimal literal is read; the result is the number
    nearest to its value, and [NaN] when there is none. *)
Definition parseFloat (s : string) : number :=
  let s := trimStart s in
  let '(negative, s) :=
    match s with
    | String "-" r => (true, r)
    | String "+" r => (false, r)
    | _ => (false, s)
    end in
  if String.prefix "Infinity" s then Inf negative
  else
    let '(intDigits, afterInt) := takeDigits s in
    let '(fracDigits, afterFrac) :=
      match afterInt with
      | String "." r => takeDigits r
      | _ => ([], afterInt)
      end in
    match intDigits, fracDigits with
    | [], [] => NaN
    | _, _ =>
        let mantissa := digitsValue (intDigits ++ fracDigits) in
        let e := (exponentPart afterFrac - Z.of_nat (length fracDigits))%Z in
        if (mantissa =? 0)%Z then zero negative
        else
          let magnitude := inject_Z mantissa * pow10 e in
          of_Q (if negative then - magnitude else magnitude)
    end.

End Str.

Export Str.

(** ** Printing numbers ([Number.prototype.toString]) *)

Module NumberText.

Local Open Scope string_scope.
Local Open Scope Q_scope.

(** The digits of a natural number. *)
Definition digitsOf (z : Z) : string := NilZero.string_of_uint (N.to_uint (Z.to_N z)).

Fixpoint zeros (n : nat) : string :=
  match n with
  | O => EmptyString
  | S n' => String "0" (zeros n')
  end.

(** [s] without the zeros at its end. *)
Fixpoint stripZeros (s : string) : string :=
  match s with
  | EmptyString => EmptyString
  | String c s' =>
      match stripZeros s' with
      | EmptyString => if Ascii.eqb c "0" then EmptyString else String c EmptyString
      | t => String c t
      end
  end.

(** The first [n] characters of [s], and the others. *)
Fixpoint splitAt (n : nat) (s : string) : string * string :=
  match n, s with
  | S n', String c s' => let '(a, b) := splitAt n' s' in (String c a, b)
  | _, _ => (EmptyString, s)
  end.

(** The least [n] from [n] on with [v < 10^n]. *)
Fixpoint decimalExponent (fuel : nat) (v : Q) (n : Z) : Z :=
  match fuel with
  | O => n
  | S fuel' => if Qltb v (pow10 n) then n else decimalExponent fuel' v (n + 1)
  end.

(** The integers [s] of [k] digits, [k] as small as possible, for which
    [s * 10^(n - k)] reads back as [x]; of two, the one nearer to the
    value [v] of [x], and of two equally near the even one.  The result
    is [s] and [k]. *)
Fixpoint shortest (fuel : nat) (x : number) (v : Q) (n k : Z) : Z * Z :=
  let scale := pow10 (n - k) in
  let lo := Qfloor (v / scale) in
  let hi := (lo + 1)%Z in
  let okLo := Object_is (of_Q (inject_Z lo * scale)) x in
  let okHi := Object_is (of_Q (inject_Z hi * scale)) x in
  let nearest :=
    match (v - inject_Z lo * scale) ?= (inject_Z hi * scale - v) with
    | Lt => lo
    | Gt => hi
    | Eq => if Z.even lo then lo else hi
    end in
  match fuel with
  | O => (nearest, k)
  | S fuel' =>
      if okLo && okHi then (nearest, k)
      else if okLo then (lo, k)
      else if okHi then (hi, k)
      else shortest fuel' x v n (k + 1)%Z
  end.

(** The digits and the decimal exponent [n] of a positive number: its
    value is [0.digits * 10^n], and the last digit is not [0]. *)
Definition decimalOf (x : number) : string * Z :=
  let v := to_Q x in
  let b := match x with
           | S754_finite _ m e => (Z.log2 (Z.pos m) + e)%Z
           | _ => 0%Z
           end in
  let n := decimalExponent 5 v (b * 30103 / 100000)%Z in
  let '(s, k) := shortest 20 x v n 1 in
  let ds := digitsOf s in
  (stripZeros ds, (n + (Z.of_nat (String.length ds) - k))%Z).

Definition toStringPositive (x : number) : string :=
  let '(ds, n) := decimalOf x in
  let k := Z.of_nat (String.length ds) in
  if ((-5 <=? n) && (n <=? 21))%Z then
    if (k <=? n)%Z then (ds ++ zeros (Z.to_nat (n - k)))%string
    else if (0 <? n)%Z then
      let '(a, b) := splitAt (Z.to_nat n) ds in (a ++ "." ++ b)%string
    else ("0." ++ zeros (Z.to_nat (- n)) ++ ds)%string
  else
    let exponent :=
      ((if (n - 1 <? 0)%Z then "e-" else "e+") ++ digitsOf (Z.abs (n - 1)))%string in
    match ds with
    | String c EmptyString => (ds ++ exponent)%string
    | String c rest => (String c ("." ++ rest) ++ exponent)%string
    | EmptyString => exponent
    end.

(** [x.toString()] *)
Definition toString (x : number) : string :=
  match x with
  | S754_nan => "NaN"
  | S754_zero _ => "0"
  | S754_infinity s => if s then "-Infinity" else "Infinity"
  | S754_finite s m e =>
      ((if s then "-" else "") ++ toStringPositive (S754_finite false m e))%string
  end.

End NumberText.

Export NumberText.

(** ** The application state ([App.tsx]) *)

(** [keyof FuelData] *)
Module Key.
Inductive t : Type :=
  | priceOnRoad
  | priceOffRoad
  | litersToRefuel
  | consumptionKmL.
End Key.

#[global] Instance key_eq_dec : EqDecision Key.t.
Proof. solve_decision. Defined.

#[global] Instance key_countable : Countable Key.t.
Proof.
  refine (inj_countable'
    (fun k => match k with
              | Key.priceOnRoad => 0%nat
              | Key.priceOffRoad => 1%nat
              | Key.litersToRefuel => 2%nat
              | Key.consumptionKmL => 3%nat
              end)
    (fun n => match n with
              | 0%nat => Key.priceOnRoad
              | 1%nat => Key.priceOffRoad
              | 2%nat => Key.litersToRefuel
              | _ => Key.consumptionKmL
              end) _).
  intros []; reflexivity.
Defined.

(** [data[field]] and [{ ...data, [field]: val }] *)
Definition getField (field : Key.t) (d : FuelData) : number :=
  match field with
  | Key.priceOnRoad => priceOnRoad d
  | Key.priceOffRoad => priceOffRoad d
  | Key.litersToRefuel => litersToRefuel d
  | Key.consumptionKmL => consumptionKmL d
  end.

Definition setField (field : Key.t) (val : number) (d : FuelData) : FuelData :=
  match field with
  | Key.priceOnRoad =>
      mkFuelData val (priceOffRoad d) (litersToRefuel d) (consumptionKmL d)
  | Key.priceOffRoad =>
      mkFuelData (priceOnRoad d) val (litersToRefuel d) (consumptionKmL d)
  | Key.litersToRefuel =>
      mkFuelData (priceOnRoad d) (priceOffRoad d) val (consumptionKmL d)
  | Key.consumptionKmL =>
      mkFuelData (priceOnRoad d) (priceOffRoad d) (litersToRefuel d) val
  end.

(** [ValidationErrors]: an object with at most one message per field; a
    missing key and the empty string both mean "valid". *)
Abbreviation ValidationErrors := (gmap Key.t string).

Record AppState : Type := mkAppState {
  data : FuelData;
  errors : ValidationErrors
}.

Definition initialState : AppState :=
  {| data := initialData; errors := ∅ |}.

(** Event handlers queue state updates with [setData(prev => ...)] and
    [setErrors(prev => ...)]; the updates are applied in order.  A handler
    is a computation over the state being updated; what it reads through
    its closure ([data]) is the state of the render that created it,
    which it receives as the argument [render]. *)
Definition React (A : Type) : Type := AppState -> A * AppState.

Definition ret {A : Type} (a : A) : React A := fun st => (a, st).

Definition bind {A B : Type} (c : React A) (k : A -> React B) : React B :=
  fun st => let '(a, st') := c st in k a st'.

Declare Scope react_scope.
Delimit Scope react_scope with react.
Notation "x <- c ;; k" := (bind c (fun x => k))
  (at level 100, c at next level, right associativity) : react_scope.
Notation "c ;; k" := (bind c (fun _ => k))
  (at level 100, right associativity) : react_scope.

Definition setData (f : FuelData -> FuelData) : React unit :=
  fun st => (tt, {| data := f (data st); errors := errors st |}).

Definition setErrors (f : ValidationErrors -> ValidationErrors) : React unit :=
  fun st => (tt, {| data := data st; errors := f (errors st) |}).

(** The state after a handler created by the current render has run. *)
Definition dispatch {A : Type} (handler : AppState -> React A) (st : AppState)
  : AppState :=
  snd (handler st st).

Module Msg.
Local Open Scope string_scope.
Definition invalid : string := "Valore non valido".
Definition notPositive : string := "Deve essere > 0".
Definition notLower : string := "Deve essere inferiore al prezzo A".
Definition none : string := "".
End Msg.

(** The test [value === null] is left out: a [number] is never [null]. *)
Definition validate (render : AppState) (field : Key.t) (value : number)
  : React string :=
  (let error := Msg.none in
   let error :=
     if isNaN value then Msg.invalid
     else if le value (of_Z 0) then Msg.notPositive
     else error in
   let error :=
     if bool_decide (field = Key.priceOffRoad)
        && ge value (priceOnRoad (data render))
        && gt value (of_Z 0)
     then Msg.notLower
     else error in
   setErrors (fun prev => <[field := error]> prev) ;;
   ret error)%react.

Definition handleUpdate (render : AppState) (field : Key.t) (val : number)
  : React unit :=
  (setData (fun prev => setField field val prev) ;;
   validate render field val ;;
   if bool_decide (field = Key.priceOnRoad)
   then validate render Key.priceOffRoad (priceOffRoad (data render)) ;; ret tt
   else ret tt)%react.

Definition applyProvincialPrice (priceStr : string) : React unit :=
  (let cleaned :=
     trim (replaceFirst "," "." (keepOnly isPriceChar priceStr)) in
   let num := parseFloat cleaned in
   if negb (isNaN num) then
     setData (fun prev =>
       mkFuelData num num (litersToRefuel prev) (consumptionKmL prev)) ;;
     setErrors (fun prev =>
       <[Key.priceOffRoad := Msg.none]> (<[Key.priceOnRoad := Msg.none]> prev))
   else ret tt)%react.

(** The cleaning of the text as the specification words it: all
    characters except digits, comma and dot are stripped, and the comma,
    the first one, becomes a dot. *)
Definition priceCharacters : string := "0123456789,.".

Definition stripped (priceStr : string) : string :=
  string_of_list_ascii
    (List.filter
       (fun c => existsb (Ascii.eqb c) (list_ascii_of_string priceCharacters))
       (list_ascii_of_string priceStr)).

Definition firstCommaToDot (s : string) : string :=
  match index 0 "," s with
  | Some n =>
      (substring 0 n s ++ "." ++ substring (S n) (String.length s - S n) s)%string
  | None => s
  end.

(** [Object.values(errors).some(error => !!error)] *)
Definition hasErrors (errs : ValidationErrors) : bool :=
  existsb (fun error => negb (String.eqb error Msg.none))
          (map snd (map_to_list errs)).

(** ** The chart series ([chartData] in [App.tsx]) *)

Record ChartPoint : Type := mkChartPoint {
  totalDist : number;
  netGain : number
}.

(** The [for] loop: [fuel] bounds the number of tests of the loop
    condition; [None] when that is not enough. *)
Fixpoint chartLoop (fuel : nat) (breakEvenTotal maxRange stepVal d : number)
  (points : list ChartPoint) : option (list ChartPoint) :=
  match fuel with
  | O => None
  | S fuel' =>
      if le d maxRange then
        let netKmGain := sub breakEvenTotal d in
        let points :=
          points ++ [ {| totalDist := toFixedNum 2 d;
                         netGain := toFixedNum 2 netKmGain |} ] in
        chartLoop fuel' breakEvenTotal maxRange stepVal (add d stepVal) points
      else Some points
  end.

Definition chartData (fuel : nat) (hasErrors : bool) (results : CalculationResult)
  : option (list ChartPoint) :=
  if hasErrors then Some []
  else
    let breakEvenTotal := extraKms results in
    let maxRange := Math_max (mul breakEvenTotal (dec 13 1)) (of_Z 5) in
    let stepVal := div maxRange (of_Z 100) in
    chartLoop fuel breakEvenTotal maxRange stepVal (of_Z 0) [].

(** [results], [hasErrors] and [chartData] as the component derives them
    from its state. *)
Definition appChartData (fuel : nat) (st : AppState) : option (list ChartPoint) :=
  chartData fuel (hasErrors (errors st)) (calculateSavings (data st)).






(** ** The stepped numeric input ([SmartNumberInput] in [App.tsx]) *)

Module SmartNumberInput.

(** What the component passed to [onChange], and from where. *)
Inductive report : Type :=
  | Typed (val : number)
  | Stepped (current delta nextVal : number).

Definition reported (r : report) : number :=
  match r with
  | Typed val => val
  | Stepped _ _ nextVal => nextVal
  end.

(** The functions handed to [window.setTimeout]: the arrow function that
    waits out the initial delay, and [run] together with the current
    values of the variables [speed] and [count] it closes over. *)
Inductive callback : Type :=
  | AfterInitialDelay (delta : number)
  | Run (delta : number) (speed count : Z).

(** A timer that is set and has neither fired nor been cleared;
    [remaining] is the time in milliseconds until it fires. *)
Record timer : Type := mkTimer {
  timerId : Z;
  remaining : Z;
  action : callback
}.

Record state : Type := mkState {
  value : number;                (* the [value] prop *)
  inputValue : string;
  valueRef : number;
  timerRef : option Z;           (* [None] is [null] *)
  initialDelayRef : option Z;
  timers : list timer;           (* the browser's pending timers *)
  nextTimerId : Z;               (* the handle [setTimeout] returns next *)
  onChangeCalls : list report    (* the calls of [onChange], oldest first *)
}.

(** A freshly mounted input showing [v]; the text shown is [text]. *)
Definition mount (v : number) (text : string) : state :=
  {| value := v; inputValue := text; valueRef := v;
     timerRef := None; initialDelayRef := None;
     timers := []; nextTimerId := 1; onChangeCalls := [] |}.

Definition setInputValue (text : string) (st : state) : state :=
  mkState (value st) text (valueRef st) (timerRef st) (initialDelayRef st)
          (timers st) (nextTimerId st) (onChangeCalls st).

Definition setTimerRef (r : option Z) (st : state) : state :=
  mkState (value st) (inputValue st) (valueRef st) r (initialDelayRef st)
          (timers st) (nextTimerId st) (onChangeCalls st).

Definition setInitialDelayRef (r : option Z) (st : state) : state :=
  mkState (value st) (inputValue st) (valueRef st) (timerRef st) r
          (timers st) (nextTimerId st) (onChangeCalls st).

Definition setTimers (ts : list timer) (st : state) : state :=
  mkState (value st) (inputValue st) (valueRef st) (timerRef st)
          (initialDelayRef st) ts (nextTimerId st) (onChangeCalls st).

(** [value.toString().replace('.', ',')] *)
Definition formattedValue (v : number) : string :=
  replaceFirst "." "," (toString v).

(** The owner stores every value it is handed ([handleUpdate] calls
    [setData] unconditionally), so the input is rendered again with the
    new [value].  When that is another number than before, the effect on
    [value] runs: it copies [value] into [valueRef], and replaces the
    text shown by the printed [value] when the text does not parse to
    it. *)
Definition newValue (v : number) (st : state) : state :=
  if Object_is v (value st) then st
  else
    let text :=
      if negb (eqn (parseFloat (replaceFirst "," "." (inputValue st))) v)
      then formattedValue v
      else inputValue st in
    mkState v text v (timerRef st) (initialDelayRef st)
            (timers st) (nextTimerId st) (onChangeCalls st).

Definition onChange (r : report) (st : state) : state :=
  let st := newValue (reported r) st in
  mkState (value st) (inputValue st) (valueRef st) (timerRef st)
          (initialDelayRef st) (timers st) (nextTimerId st)
          (onChangeCalls st ++ [r]).

(** [window.setTimeout(action, delay)] and [clearTimeout(id)] *)
Definition setTimeout (action : callback) (delay : Z) (st : state) : Z * state :=
  let id := nextTimerId st in
  (id,
   mkState (value st) (inputValue st) (valueRef st) (timerRef st)
           (initialDelayRef st)
           (timers st ++ [ {| timerId := id; remaining := delay; action := action |} ])
           (id + 1) (onChangeCalls st)).

Definition clearTimeout (id : Z) (st : state) : state :=
  setTimers (List.filter (fun t => negb (timerId t =? id)%Z) (timers st)) st.

(** [if (ref.current)]: [null] and [0] are falsy. *)
Definition truthy (r : option Z) : bool :=
  match r with
  | Some id => negb (id =? 0)%Z
  | None => false
  end.

Definition clearIfSet (r : option Z) (st : state) : state :=
  match r with
  | Some id => if truthy r then clearTimeout id st else st
  | None => st
  end.

Definition handleInputChange (original : string) (st : state) : state :=
  let normalized := replaceFirst "," "." original in
  if test numericPattern original then
    let st := setInputValue original st in
    let parsed := parseFloat normalized in
    if negb (isNaN parsed) then onChange (Typed parsed) st
    else if (String.eqb normalized "" || String.eqb normalized "-"
             || String.eqb normalized ".")%bool
         then onChange (Typed (of_Z 0)) st
         else st
  else st.

Definition stopAdjusting (st : state) : state :=
  let st := clearIfSet (timerRef st) st in
  let st := clearIfSet (initialDelayRef st) st in
  let st := setTimerRef None st in
  setInitialDelayRef None st.

Definition performUpdate (d : number) (st : state) : state :=
  let nextVal := Math_max (of_Z 0) (toFixedNum 3 (add (valueRef st) d)) in
  onChange (Stepped (valueRef st) d nextVal) st.

Definition startAdjusting (delta : number) (st : state) : state :=
  let st := stopAdjusting st in
  let st := performUpdate delta st in
  let '(id, st) := setTimeout (AfterInitialDelay delta) 400 st in
  setInitialDelayRef (Some id) st.

(** What a timer does when it fires. *)
Definition fire (action : callback) (st : state) : state :=
  match action with
  | AfterInitialDelay delta =>
      let speed := 80%Z in
      let count := 0%Z in
      let '(id, st) := setTimeout (Run delta speed count) speed st in
      setTimerRef (Some id) st
  | Run delta speed count =>
      let st := performUpdate delta st in
      let count := (count + 1)%Z in
      let speed := if (count =? 10)%Z then 40%Z else speed in
      let speed := if (count =? 30)%Z then 15%Z else speed in
      let '(id, st) := setTimeout (Run delta speed count) speed st in
      setTimerRef (Some id) st
  end.

(** The first pending timer that is due, and the others. *)
Fixpoint takeDue (ts : list timer) : option (timer * list timer) :=
  match ts with
  | [] => None
  | t :: ts' =>
      if (remaining t <=? 0)%Z then Some (t, ts')
      else match takeDue ts' with
           | Some (u, rest) => Some (u, t :: rest)
           | None => None
           end
  end.

(** Fire the timers that are due, oldest first; no more than [n] of
    them. *)
Fixpoint fireDue (n : nat) (st : state) : state :=
  match n with
  | O => st
  | S n' =>
      match takeDue (timers st) with
      | Some (t, rest) => fireDue n' (fire (action t) (setTimers rest st))
      | None => st
      end
  end.

(** One millisecond passes: every pending timer is one millisecond
    closer, and those that are due fire.  A timer set meanwhile waits at
    least 15 ms, so the timers due are among those pending before. *)
Definition tick (st : state) : state :=
  let ts := map (fun t => mkTimer (timerId t) (remaining t - 1) (action t))
                (timers st) in
  fireDue (length ts) (setTimers ts st).

Fixpoint elapse (ms : nat) (st : state) : state :=
  match ms with
  | O => st
  | S ms' => elapse ms' (tick st)
  end.

(** What can happen to a mounted input. *)
Inductive event : Type :=
  | PointerDown (delta : number)   (* on the plus or the minus button *)
  | PointerUp
  | PointerLeave
  | Change (text : string)         (* a keystroke in the text field *)
  | Blur                           (* the text field loses the focus *)
  | ValueChanged (v : number)      (* the owner changed [value] by itself *)
  | Wait (ms : nat).

Definition step (st : state) (e : event) : state :=
  match e with
  | PointerDown delta => startAdjusting delta st
  | PointerUp => stopAdjusting st
  | PointerLeave => stopAdjusting st
  | Change text => handleInputChange text st
  | Blur => setInputValue (formattedValue (value st)) st
  | ValueChanged v => newValue v st
  | Wait ms => elapse ms st
  end.

Definition run (es : list event) (st : state) : state := fold_left step es st.

(** A pending timer is in order when its handle is a positive number, it
    is still to fire, and the ref that belongs to its kind holds its
    handle. *)
Definition timerOk (st : state) (t : timer) : Prop :=
  (0 < timerId t)%Z /\ (0 < remaining t)%Z /\
  match action t with
  | AfterInitialDelay _ => initialDelayRef st = Some (timerId t)
  | Run _ speed _ => timerRef st = Some (timerId t) /\ (0 < speed)%Z
  end.

(** The invariant of the component: at most one timer is pending, and it
    is in order; [valueRef] follows [value]. *)
Definition wellFormed (st : state) : Prop :=
  (0 < nextTimerId st)%Z /\ valueRef st = value st /\
  match timers st with
  | [] => True
  | [t] => timerOk st t
  | _ => False
  end.


(** [st] with the history [l] in front of its own. *)
Definition prependLog (l : list report) (st : state) : state :=
  mkState (value st) (inputValue st) (valueRef st) (timerRef st)
          (initialDelayRef st) (timers st) (nextTimerId st)
          (l ++ onChangeCalls st).

(** What the timing of the component depends on: the two refs, the
    pending timers without the numbers they carry, the handle
    [setTimeout] returns next, and how many reports have been made. *)
Definition callbackKind (a : callback) : option (Z * Z) :=
  match a with
  | AfterInitialDelay _ => None
  | Run _ speed count => Some (speed, count)
  end.

Definition timerKind (t : timer) : Z * Z * option (Z * Z) :=
  (timerId t, remaining t, callbackKind (action t)).

Definition schedule (st : state)
  : option Z * option Z * list (Z * Z * option (Z * Z)) * Z * nat :=
  (timerRef st, initialDelayRef st, map timerKind (timers st),
   nextTimerId st, length (onChangeCalls st)).

(** [st] with no timer pending and both refs [null]. *)
Definition idle (st : state) : state :=
  mkState (value st) (inputValue st) (valueRef st) None None []
          (nextTimerId st) (onChangeCalls st).

(** An idle control with an empty history. *)
Definition fresh (v vr : number) (text : string) (n : Z) : state :=
  mkState v text vr None None [] n [].

(** The number of reports a press has made after [ms] milliseconds, as
    long as fewer than ten repeats have happened: one at once, and one
    more for every 80 ms that have gone by since the initial delay of
    400 ms. *)
Definition expectedReports (ms : nat) : nat :=
  if (ms <? 400)%nat then 1%nat else (1 + (ms - 400) / 80)%nat.

End SmartNumberInput.

(** ** More on strings: the digits of [parseFloat], and matching inside a text *)

(** The part of [parseFloat] that reads the digits, once the sign is
    known and the text does not start with [Infinity]: [parseFloat] is
    [parseDecimal] behind the white space and the sign. *)
Definition parseDecimal (negative : bool) (s : string) : number :=
  let '(intDigits, afterInt) := takeDigits s in
  let '(fracDigits, afterFrac) :=
    match afterInt with
    | String "." r => takeDigits r
    | _ => ([], afterInt)
    end in
  match intDigits, fracDigits with
  | [], [] => NaN
  | _, _ =>
      let mantissa := digitsValue (intDigits ++ fracDigits) in
      let e := (exponentPart afterFrac - Z.of_nat (length fracDigits))%Z in
      if (mantissa =? 0)%Z then zero negative
      else
        let magnitude := (inject_Z mantissa * pow10 e)%Q in
        of_Q (if negative then (- magnitude)%Q else magnitude)
  end.

(** Every character of [s] is in the class [p]. *)
Fixpoint allChars (p : ascii -> bool) (s : string) : bool :=
  match s with
  | EmptyString => true
  | String c s' => p c && allChars p s'
  end.

(** No text matches [r]: [r] has an empty part in every alternative. *)
Fixpoint dead (r : regex) : bool :=
  match r with
  | Void => true
  | Eps => false
  | Class _ => false
  | Seq r1 r2 => dead r1 || dead r2
  | Alt r1 r2 => dead r1 && dead r2
  | Star _ => false
  end.

(** The longest prefix of [s] that [r] matches. *)
Fixpoint longest (r : regex) (s : string) : option string :=
  match s with
  | EmptyString => if nullable r then Some EmptyString else None
  | String c s' =>
      match longest (deriv c r) s' with
      | Some m => Some (String c m)
      | None => if nullable r then Some EmptyString else None
      end
  end.

(** [s.match(r)] for a pattern without anchors and flags: the match at
    the first position that has one.  The longest match is taken there;
    this is what a pattern finds whose only choice is one greedy star. *)
Fixpoint matchFirst (r : regex) (s : string) : option string :=
  match longest r s with
  | Some m => Some m
  | None =>
      match s with
      | EmptyString => None
      | String _ s' => matchFirst r s'
      end
  end.

(** [[\s\S]] *)
Definition anyChar (c : ascii) : bool := true.

(** [/\{[\s\S]*\}/] *)
Definition jsonPattern : regex :=
  Seq (Class (isChar "{")) (Seq (Star (Class anyChar)) (Class (isChar "}"))).

(** [text.match(/\{[\s\S]*\}/)]: the text matched, [jsonMatch[0]], or
    [None] for [null]. *)
Definition jsonMatch (text : string) : option string := matchFirst jsonPattern text.

(** The character [c] does not occur in [s]. *)
Definition noChar (c : ascii) (s : string) : bool :=
  allChars (fun x => negb (isChar c x)) s.

(** ** The schedule of the timed repeats *)

(** The number of timed repeats [ms] milliseconds into a press: every
    80 ms after the initial delay of 400 ms up to the tenth repeat at
    1200 ms, then every 40 ms up to the thirtieth at 2000 ms, then every
    15 ms. *)
Definition expectedRepeats (ms : nat) : nat :=
  if (ms <? 1200)%nat then ((ms - 400) / 80)%nat
  else if (ms <? 2000)%nat then (10 + (ms - 1200) / 40)%nat
  else (30 + (ms - 2000) / 15)%nat.

(** ** The requests ([fetchAiAdvice] and [fetchProvincialPrices] in [App.tsx]) *)

Module Remote.

Local Open Scope string_scope.

Record Source : Type := mkSource {
  title : string;
  uri : string
}.

(** A grounding chunk of a response; [None] is [undefined]. *)
Record WebChunk : Type := mkWebChunk {
  webTitle : option string;
  webUri : option string
}.

Record GroundingChunk : Type := mkGroundingChunk {
  web : option WebChunk
}.

(** What [generateContent] resolves to: [text] is [response.text], and
    [groundingChunks] is
    [response.candidates?.[0]?.groundingMetadata?.groundingChunks]. *)
Record Response : Type := mkResponse {
  text : option string;
  groundingChunks : option (list GroundingChunk)
}.

(** [a || b] for a text [a] that may be [undefined]: the empty text is
    falsy. *)
Definition orText (a : option string) (b : string) : string :=
  match a with
  | Some s => if String.eqb s "" then b else s
  | None => b
  end.

(** [chunks?.filter(chunk => chunk.web).map(...).slice(0, 3) || []] *)
Definition sourcesOf (chunks : option (list GroundingChunk)) : list Source :=
  match chunks with
  | Some cs =>
      firstn 3
        (map (fun chunk =>
                {| title := orText (match web chunk with
                                    | Some w => webTitle w
                                    | None => None
                                    end) "Fonte Prezzi";
                   uri := orText (match web chunk with
                                  | Some w => webUri w
                                  | None => None
                                  end) "" |})
             (List.filter (fun chunk => match web chunk with
                                        | Some _ => true
                                        | None => false
                                        end) cs))
  | None => []
  end.

Module Notice.
Definition noAdvice : string := "Nessun consiglio disponibile.".
Definition adviceFailed : string := "Errore nel recupero del consiglio AI.".
Definition noGeolocation : string := "Geolocalizzazione non supportata.".
Definition pricesFailed : string :=
  "Impossibile recuperare i prezzi provinciali accurati da AlVolante.".
Definition denied : string := "Permesso negato.".
Definition timedOut : string := "Timeout rilevamento.".
Definition gpsFailed : string := "Errore GPS.".
End Notice.

(** How the request to the model ends: with a response, or with an
    exception. *)
Inductive aiOutcome : Type :=
  | Responded (response : Response)
  | Threw.

(** How [getCurrentPosition] ends: the success callback runs, and the
    request it sends ends as said, or the error callback runs with
    [err.code]. *)
Inductive positionOutcome : Type :=
  | Located (ai : aiOutcome)
  | PositionError (code : Z).

Section Json.

(** The values [JSON.parse] returns, [JSON.parse] itself ([None] when it
    throws), and the reading of a property. *)
Context {J : Type}.
Variable JSON_parse : string -> option J.
Variable getProp : string -> J -> J.

Record ProvincialPrices : Type := mkProvincialPrices {
  province : J;
  prices : J;
  sources : list Source
}.

(** The other state of [App]. *)
Record UiState : Type := mkUiState {
  aiAdvice : string;
  loadingAi : bool;
  provincialData : option ProvincialPrices;   (* [None] is [null] *)
  loadingProvince : bool;
  locationError : string;
  isProvincialCollapsed : bool
}.

(** The calls of the state setters. *)
Inductive update : Type :=
  | SetAiAdvice (advice : string)
  | SetLoadingAi (loading : bool)
  | SetProvincialData (d : option ProvincialPrices)
  | SetLoadingProvince (loading : bool)
  | SetLocationError (message : string)
  | SetIsProvincialCollapsed (collapsed : bool).

Definition applyUpdate (ui : UiState) (u : update) : UiState :=
  match u with
  | SetAiAdvice advice =>
      mkUiState advice (loadingAi ui) (provincialData ui) (loadingProvince ui)
                (locationError ui) (isProvincialCollapsed ui)
  | SetLoadingAi loading =>
      mkUiState (aiAdvice ui) loading (provincialData ui) (loadingProvince ui)
                (locationError ui) (isProvincialCollapsed ui)
  | SetProvincialData d =>
      mkUiState (aiAdvice ui) (loadingAi ui) d (loadingProvince ui)
                (locationError ui) (isProvincialCollapsed ui)
  | SetLoadingProvince loading =>
      mkUiState (aiAdvice ui) (loadingAi ui) (provincialData ui) loading
                (locationError ui) (isProvincialCollapsed ui)
  | SetLocationError message =>
      mkUiState (aiAdvice ui) (loadingAi ui) (provincialData ui)
                (loadingProvince ui) message (isProvincialCollapsed ui)
  | SetIsProvincialCollapsed collapsed =>
      mkUiState (aiAdvice ui) (loadingAi ui) (provincialData ui)
                (loadingProvince ui) (locationError ui) collapsed
  end.

Definition applyAll (us : list update) (ui : UiState) : UiState :=
  fold_left applyUpdate us ui.

(** [fetchAiAdvice]: the setters it calls, in order, given the
    [hasErrors] of the render that created it and the way the request
    ends.  The prompt is not modelled. *)
Definition fetchAiAdvice (hasErrors : bool) (outcome : aiOutcome) : list update :=
  if hasErrors then []
  else
    [SetLoadingAi true]
    ++ match outcome with
       | Responded response =>
           let cleanText :=
             keepOnly (fun c => negb (isChar "*" c)) (orText (text response) "") in
           [SetAiAdvice (orText (Some cleanText) Notice.noAdvice)]
       | Threw => [SetAiAdvice Notice.adviceFailed]
       end
    ++ [SetLoadingAi false].

(** [fetchProvincialPrices]: the setters it calls, in order, given
    whether [navigator.geolocation] is there and the way the position
    request ends. *)
Definition fetchProvincialPrices (geolocation : bool) (outcome : positionOutcome)
  : list update :=
  [SetLoadingProvince true; SetLocationError ""; SetIsProvincialCollapsed false]
  ++ if negb geolocation then
       [SetLocationError Notice.noGeolocation; SetLoadingProvince false]
     else
       match outcome with
       | Located ai =>
           match ai with
           | Responded response =>
               match jsonMatch (orText (text response) "") with
               | None => [SetLocationError Notice.pricesFailed]
               | Some matched =>
                   match JSON_parse matched with
                   | None => [SetLocationError Notice.pricesFailed]
                   | Some parsed =>
                       [SetProvincialData
                          (Some {| province := getProp "province" parsed;
                                   prices := getProp "prices" parsed;
                                   sources := sourcesOf (groundingChunks response) |})]
                   end
               end
           | Threw => [SetLocationError Notice.pricesFailed]
           end
           ++ [SetLoadingProvince false]
       | PositionError code =>
           [SetLoadingProvince false;
            SetLocationError (if (code =? 1)%Z then Notice.denied
                              else if (code =? 3)%Z then Notice.timedOut
                              else Notice.gpsFailed)]
       end.

End Json.

End Remote.

(** * Properties *)

(** ** Arithmetic of the number model *)

Section RationalTests.

Local Open Scope Q_scope.

Lemma Qltb_true (a b : Q) : Qltb a b = true <-> a < b.
Proof.
  unfold Qltb. rewrite negb_true_iff. split; intros H.
  - apply Qnot_le_lt. intros Hle. apply Qle_bool_iff in Hle. congruence.
  - destruct (Qle_bool b a) eqn:E; [| reflexivity].
    apply Qle_bool_iff in E. lra.
Qed.

Lemma Qltb_false (a b : Q) : Qltb a b = false <-> b <= a.
Proof. unfold Qltb. rewrite negb_false_iff. apply Qle_bool_iff. Qed.



End RationalTests.

(** ** Rounding: the result of an operation is a number with the sign of
    the exact result *)

Section Rounding64.

Lemma shr_1_nonneg (mrs : shr_record) :
  (0 <= shr_m mrs)%Z -> (0 <= shr_m (shr_1 mrs))%Z.
Proof.
  destruct mrs as [m r s]. cbn [shr_m shr_1].
  destruct m as [| [p | p |] | p]; cbn [shr_m]; lia.
Qed.

Lemma iter_shr_1_nonneg (p : positive) :
  forall mrs, (0 <= shr_m mrs)%Z -> (0 <= shr_m (SpecFloat.iter_pos shr_1 p mrs))%Z.
Proof.
  induction p as [p IH | p IH |]; intros mrs H; cbn [SpecFloat.iter_pos].
  - apply IH, IH, shr_1_nonneg, H.
  - apply IH, IH, H.
  - apply shr_1_nonneg, H.
Qed.

Lemma shr_fexp_nonneg (m e : Z) (l : location) :
  (0 <= m)%Z -> (0 <= shr_m (fst (shr_fexp prec emax m e l)))%Z.
Proof.
  intros H. unfold shr_fexp, shr.
  assert (H0 : (0 <= shr_m (shr_record_of_loc m l))%Z)
    by (destruct l as [| []]; exact H).
  destruct (fexp prec emax (Zdigits2 m + e) - e)%Z; cbn [fst];
    [exact H0 | apply iter_shr_1_nonneg, H0 | exact H0].
Qed.

Lemma round_nearest_even_nonneg (m : Z) (l : location) :
  (0 <= m)%Z -> (0 <= round_nearest_even m l)%Z.
Proof.
  intros H. destruct l as [| []]; cbn [round_nearest_even]; try lia.
  destruct (Z.even m); lia.
Qed.

(** Rounding gives a zero, a finite number or an infinity, with the sign
    it was given. *)
Lemma binary_round_aux_sign (s : bool) (m e : Z) (l : location) :
  (0 <= m)%Z ->
  isNaN (binary_round_aux prec emax s m e l) = false
  /\ sign (binary_round_aux prec emax s m e l) = s.
Proof.
  intros H. unfold binary_round_aux.
  pose proof (shr_fexp_nonneg m e l H) as H1.
  destruct (shr_fexp prec emax m e l) as [mrs' e']. cbn [fst] in H1.
  pose proof (shr_fexp_nonneg _ e' loc_Exact
                (round_nearest_even_nonneg _ (loc_of_shr_record mrs') H1)) as H2.
  destruct (shr_fexp prec emax _ e' loc_Exact) as [mrs'' e'']. cbn [fst] in H2.
  destruct (shr_m mrs'') as [| p | p]; [split; reflexivity | | lia].
  destruct (e'' <=? emax - prec)%Z; split; reflexivity.
Qed.

Lemma binary_round_sign (s : bool) (m : positive) (e : Z) :
  isNaN (binary_round prec emax s m e) = false
  /\ sign (binary_round prec emax s m e) = s.
Proof.
  unfold binary_round.
  destruct (shl_align m e _) as [mz ez]. apply binary_round_aux_sign. lia.
Qed.

End Rounding64.

Section Operations.


Lemma sign_mul (x y : number) :
  isNaN (mul x y) = false -> sign (mul x y) = xorb (sign x) (sign y).
Proof.
  destruct x as [sx | sx | | sx mx ex], y as [sy | sy | | sy my ey];
    try reflexivity; try discriminate.
  intros _. apply (binary_round_aux_sign (xorb sx sy)). lia.
Qed.

Lemma div_core_nonneg (mx my : positive) (ex ey : Z) :
  (0 <= fst (fst (SFdiv_core_binary prec emax (Z.pos mx) ex (Z.pos my) ey)))%Z.
Proof.
  unfold SFdiv_core_binary.
  set (m' := match (ex - ey - _)%Z with
             | Z0 => Z.pos mx
             | Z.pos _ => Z.shiftl (Z.pos mx) _
             | Z.neg _ => 0%Z
             end).
  assert (Hm : (0 <= m')%Z).
  { unfold m'. destruct (ex - ey - _)%Z; [lia | | lia].
    apply Z.shiftl_nonneg. lia. }
  pose proof (Z_div_mod m' (Z.pos my) ltac:(lia)) as Hd.
  destruct (Z.div_eucl m' (Z.pos my)) as [q r]. cbn [fst].
  destruct Hd as [Hq Hr]. nia.
Qed.

Lemma div_finite_sign (sx sy : bool) (mx my : positive) (ex ey : Z) :
  isNaN (div (S754_finite sx mx ex) (S754_finite sy my ey)) = false
  /\ sign (div (S754_finite sx mx ex) (S754_finite sy my ey)) = xorb sx sy.
Proof.
  unfold div. cbn [SFdiv].
  pose proof (div_core_nonneg mx my ex ey) as H.
  destruct (SFdiv_core_binary prec emax (Z.pos mx) ex (Z.pos my) ey)
    as [[mz ez] lz]. cbn [fst] in H.
  apply binary_round_aux_sign, H.
Qed.


Lemma sign_div (x y : number) :
  isNaN (div x y) = false -> sign (div x y) = xorb (sign x) (sign y).
Proof.
  destruct x as [sx | sx | | sx mx ex], y as [sy | sy | | sy my ey];
    try reflexivity; try discriminate.
  intros _. apply div_finite_sign.
Qed.

Lemma binary_normalize_isNaN (z e : Z) (szero : bool) :
  isNaN (binary_normalize prec emax z e szero) = false.
Proof.
  destruct z; cbn [binary_normalize]; [reflexivity | |]; apply binary_round_sign.
Qed.

Lemma isNaN_add (x y : number) :
  isNaN (add x y)
  = isNaN x || isNaN y || (isInf x && isInf y && xorb (sign x) (sign y)).
Proof.
  destruct x as [[] | [] | | sx mx ex], y as [[] | [] | | sy my ey];
    try reflexivity.
  apply binary_normalize_isNaN.
Qed.


(** The number nearest to a rational has its sign. *)
Lemma of_Q_sign (q : Q) :
  isNaN (of_Q q) = false /\ sign (of_Q q) = (Qnum q <? 0)%Z.
Proof.
  unfold of_Q. destruct (Qnum q) as [| n | n]; [split; reflexivity | |];
    apply div_finite_sign.
Qed.

End Operations.

Section Comparisons.

Lemma of_Z_0 : of_Z 0 = S754_zero false.
Proof. reflexivity. Qed.

Lemma cmp_antisym (x y : number) :
  cmp y x = option_map CompOpp (cmp x y).
Proof.
  destruct x as [sx | sx | | sx mx ex], y as [sy | sy | | sy my ey];
    try reflexivity;
    try (destruct sx; reflexivity); try (destruct sy; reflexivity);
    try (destruct sx, sy; reflexivity).
  unfold cmp. cbn [SFcompare option_map].
  rewrite (Z.compare_antisym ex ey).
  assert (H : Pos.compare_cont Eq my mx = CompOpp (Pos.compare_cont Eq mx my))
    by (symmetry; apply (Pos.compare_cont_antisym mx my Eq)).
  rewrite H.
  destruct sx, sy; cbn [CompOpp]; try reflexivity;
    destruct (ex ?= ey)%Z; cbn [CompOpp]; try reflexivity;
    destruct (Pos.compare_cont Eq mx my); reflexivity.
Qed.

Lemma gt_le_false (x y : number) :
  gt x y = true -> le x y = false /\ isNaN x = false.
Proof.
  unfold gt, lt, le. rewrite (cmp_antisym x y).
  destruct (cmp x y) as [[] |] eqn:E; cbn; try discriminate.
  intros _. split; [reflexivity |]. destruct x; try reflexivity. discriminate E.
Qed.

Lemma lt_ge_false (x y : number) : lt x y = true -> ge x y = false.
Proof.
  unfold ge, lt, le. rewrite (cmp_antisym x y).
  destruct (cmp x y) as [[] |]; cbn; try discriminate. reflexivity.
Qed.

Lemma ge_two_gt_zero (x : number) :
  ge x (of_Z 2) = true -> gt x (of_Z 0) = true.
Proof. destruct x as [[] | [] | | [] m e]; try discriminate; reflexivity. Qed.

Lemma isNaN_ge_false (x y : number) : isNaN x = true -> ge x y = false.
Proof. destruct x; try discriminate. destruct y; reflexivity. Qed.

(** A number above zero is [+Infinity] or a positive finite number. *)
Lemma gt_zero_inv (x : number) :
  gt x (of_Z 0) = true ->
  x = Inf false \/ exists m e, x = S754_finite false m e.
Proof.
  destruct x as [[] | [] | | [] m e]; try discriminate; intros _;
    [left; reflexivity | right; eauto].
Qed.

Lemma positiveFinite_inv (x : number) :
  positiveFinite x = true -> exists m e, x = S754_finite false m e.
Proof.
  unfold positiveFinite. intros [H1 H2]%andb_true_iff.
  destruct (gt_zero_inv x H1) as [-> | H]; [discriminate | exact H].
Qed.

End Comparisons.

Section Clamping.

(** [Math.max(0, x)] is never below zero, and is at least zero unless it
    is [NaN]. *)
Lemma Math_max_zero_not_lt (x : number) :
  lt (Math_max (of_Z 0) x) (of_Z 0) = false.
Proof. destruct x as [[] | [] | | [] m e]; reflexivity. Qed.


Lemma Math_max_zero_idem (x : number) :
  Math_max (of_Z 0) (Math_max (of_Z 0) x) = Math_max (of_Z 0) x.
Proof. destruct x as [[] | [] | | [] m e]; reflexivity. Qed.

(** A number with the sign bit set is clamped to zero, and one without
    it is kept, unless it is [-0]. *)
Lemma Math_max_zero_neg (x : number) :
  isNaN x = false -> sign x = true -> Math_max (of_Z 0) x = of_Z 0.
Proof. destruct x as [[] | [] | | [] m e]; try discriminate; reflexivity. Qed.

Lemma Math_max_zero_pos (x : number) :
  isNaN x = false -> sign x = false -> Math_max (of_Z 0) x = x.
Proof. destruct x as [[] | [] | | [] m e]; try discriminate; reflexivity. Qed.

(** Dividing by a positive finite number: clamping the dividend first
    makes no difference once the quotient is clamped. *)
Lemma Math_max_zero_div_pos (x : number) (m : positive) (e : Z) :
  Math_max (of_Z 0) (div x (S754_finite false m e))
  = Math_max (of_Z 0) (div (Math_max (of_Z 0) x) (S754_finite false m e)).
Proof.
  destruct x as [[] | [] | | [] mx ex]; try reflexivity.
  destruct (div_finite_sign true false mx m ex e) as [Hn Hs].
  rewrite (Math_max_zero_neg _ Hn Hs). reflexivity.
Qed.

(** Clamping at zero commutes with halving. *)
Lemma Math_max_zero_half (x : number) :
  Math_max (of_Z 0) (div x (of_Z 2)) = div (Math_max (of_Z 0) x) (of_Z 2).
Proof.
  destruct x as [[] | [] | | [] mx ex]; try reflexivity.
  - change (of_Z 2) with (S754_finite false 4503599627370496 (-51)).
    destruct (div_finite_sign true false mx 4503599627370496 ex (-51)) as [Hn Hs].
    rewrite (Math_max_zero_neg _ Hn Hs). reflexivity.
  - change (of_Z 2) with (S754_finite false 4503599627370496 (-51)).
    destruct (div_finite_sign false false mx 4503599627370496 ex (-51)) as [Hn Hs].
    rewrite (Math_max_zero_pos _ Hn Hs). reflexivity.
Qed.

End Clamping.

(** ** The savings calculator *)

Section SavingsCalculator.

(** C1, as the code has it.  For every record, the fields of the result
    are: [savingsEuro = max(0, p)] with [p] the product
    [(priceOnRoad - priceOffRoad) * litersToRefuel];
    [costPerKm = priceOffRoad / consumptionKmL], not clamped;
    [extraKms = max(0, p / costPerKm)], from the product [p] and not from
    the clamped [savingsEuro]; [maxOneWayDistance = max(0, extraKms / 2)].
    When [costPerKm] is positive and finite, the result is also what the
    formulas give when each starts from the clamped quantity before it. *)
Theorem calculateSavings_formulas (d : FuelData) :
  let r := calculateSavings d in
  let product :=
    mul (sub (priceOnRoad d) (priceOffRoad d)) (litersToRefuel d) in
  savingsEuro r = Math_max (of_Z 0) product
  /\ costPerKm r = div (priceOffRoad d) (consumptionKmL d)
  /\ extraKms r = Math_max (of_Z 0) (div product (costPerKm r))
  /\ maxOneWayDistance r = Math_max (of_Z 0) (div (extraKms r) (of_Z 2))
  /\ (positiveFinite (costPerKm r) = true -> r = calculateSavings_claimed d).
Proof.
  destruct d as [on off l c].
  cbn [calculateSavings priceOnRoad priceOffRoad litersToRefuel consumptionKmL
       savingsEuro costPerKm extraKms maxOneWayDistance].
  repeat split.
  - rewrite !Math_max_zero_half, Math_max_zero_idem. reflexivity.
  - intros Hcost. destruct (positiveFinite_inv _ Hcost) as (m & e & Ek).
    unfold calculateSavings_claimed;
      cbn [priceOnRoad priceOffRoad litersToRefuel consumptionKmL].
    rewrite Ek.
    rewrite <- (Math_max_zero_div_pos _ m e).
    rewrite !Math_max_zero_half, Math_max_zero_idem.
    reflexivity.
Qed.

Lemma calculateSavings_formulas_witness :
  positiveFinite (costPerKm (calculateSavings initialData)) = true
  /\ calculateSavings initialData = calculateSavings_claimed initialData.
Proof.
  split; [reflexivity |].
  exact (proj2 (proj2 (proj2 (proj2 (calculateSavings_formulas initialData))))
           eq_refl).
Defined.

(** C1, as the claim words it, fails: with prices 1 and 2, one litre and
    a consumption of -1, the product is -1 and the cost per km is -2, so
    the code returns [extraKms = 0.5], while the clamped savings [0]
    divided by [-2] give [0]. *)
Lemma calculateSavings_claimed_differs :
  let d := mkFuelData (of_Z 1) (of_Z 2) (of_Z 1) (of_Z (-1)) in
  extraKms (calculateSavings d) = dec 5 1
  /\ extraKms (calculateSavings_claimed d) = of_Z 0
  /\ calculateSavings d <> calculateSavings_claimed d.
Proof.
  split; [reflexivity | split; [reflexivity |]].
  vm_compute. discriminate.
Qed.

End SavingsCalculator.

(** ** The sign of a difference *)

Section Differences.

Local Open Scope Z_scope.








End Differences.

Section Signs.

Lemma nonPositive_inv (x : number) :
  nonPositive x = true -> isNaN x = false /\ (sign x = true \/ isZero x = true).
Proof.
  unfold nonPositive. intros [H1 H2]%andb_true_iff.
  apply negb_true_iff in H1. apply orb_true_iff in H2. split; assumption.
Qed.




End Signs.

Section SavingsSigns.







(** C8, with the figures the code computes.  For the record the
    application starts with, [savingsEuro] is
    [5629499534213125 / 2^51 = 2.5000000000000022...], a little above
    [2.5] and [2.50] to two decimals; [costPerKm] is [1.599 / 18], which
    is [0.0888] to four decimals; [extraKms] is
    [7921434616622596 / 2^48 = 28.1425891...], which is [28.14] to two
    decimals; and [maxOneWayDistance] is half of that, [14.07] to two
    decimals. *)
Theorem calculateSavings_initialData :
  let r := calculateSavings initialData in
  savingsEuro r = S754_finite false 5629499534213125 (-51)
  /\ gt (savingsEuro r) (dec 25 1) = true
  /\ toFixedNum 2 (savingsEuro r) = dec 250 2
  /\ costPerKm r = div (dec 1599 3) (of_Z 18)
  /\ toFixedNum 4 (costPerKm r) = dec 888 4
  /\ extraKms r = S754_finite false 7921434616622596 (-48)
  /\ toFixedNum 2 (extraKms r) = dec 2814 2
  /\ maxOneWayDistance r = S754_finite false 7921434616622596 (-49)
  /\ toFixedNum 2 (maxOneWayDistance r) = dec 1407 2.
Proof. vm_compute. repeat split. Qed.

(** C8, as the claim words it, fails in its third figure: [extraKms] is
    below [28.145], so to two decimals it is not [28.15]; and
    [savingsEuro] is not [2.5] itself. *)
Lemma initialData_extraKms_not_28_15 :
  lt (extraKms (calculateSavings initialData)) (dec 28145 3) = true
  /\ toFixedNum 2 (extraKms (calculateSavings initialData)) <> dec 2815 2
  /\ savingsEuro (calculateSavings initialData) <> dec 25 1.
Proof. split; [reflexivity | split; vm_compute; discriminate]. Qed.

End SavingsSigns.

(** ** More on the savings calculator *)

Section SavingsCalculatorMore.

(** X2.  Whatever the record, valid or not, the three clamped results are
    never below zero. *)
Theorem calculateSavings_never_negative (d : FuelData) :
  let r := calculateSavings d in
  lt (savingsEuro r) (of_Z 0) = false
  /\ lt (extraKms r) (of_Z 0) = false
  /\ lt (maxOneWayDistance r) (of_Z 0) = false.
Proof.
  destruct d as [on off l c]. cbn. repeat split; apply Math_max_zero_not_lt.
Qed.

Lemma isNaN_Math_max (x y : number) :
  isNaN y = true -> isNaN (Math_max x y) = true.
Proof. destruct y; try discriminate. destruct x; reflexivity. Qed.

Lemma isNaN_sub_l (x y : number) : isNaN x = true -> isNaN (sub x y) = true.
Proof. destruct x; try discriminate. reflexivity. Qed.

Lemma isNaN_sub_r (x y : number) : isNaN y = true -> isNaN (sub x y) = true.
Proof. destruct y; try discriminate. destruct x; reflexivity. Qed.

Lemma isNaN_mul_l (x y : number) : isNaN x = true -> isNaN (mul x y) = true.
Proof. destruct x; try discriminate. reflexivity. Qed.

Lemma isNaN_mul_r (x y : number) : isNaN y = true -> isNaN (mul x y) = true.
Proof. destruct y; try discriminate. destruct x; reflexivity. Qed.

Lemma isNaN_div_l (x y : number) : isNaN x = true -> isNaN (div x y) = true.
Proof. destruct x; try discriminate. reflexivity. Qed.

Lemma isNaN_div_r (x y : number) : isNaN y = true -> isNaN (div x y) = true.
Proof. destruct y; try discriminate. destruct x; reflexivity. Qed.

(** X3.  The clamps do not hide a missing number: a [NaN] price or a
    [NaN] volume makes [savingsEuro], [extraKms] and [maxOneWayDistance]
    all [NaN], and a [NaN] consumption makes [costPerKm], [extraKms] and
    [maxOneWayDistance] [NaN]. *)
Theorem calculateSavings_NaN (d : FuelData) :
  let r := calculateSavings d in
  (isNaN (priceOnRoad d) || isNaN (priceOffRoad d) || isNaN (litersToRefuel d)
   = true ->
   isNaN (savingsEuro r) = true /\ isNaN (extraKms r) = true
   /\ isNaN (maxOneWayDistance r) = true)
  /\ (isNaN (consumptionKmL d) = true ->
      isNaN (costPerKm r) = true /\ isNaN (extraKms r) = true
      /\ isNaN (maxOneWayDistance r) = true).
Proof.
  destruct d as [on off l c].
  cbn [calculateSavings priceOnRoad priceOffRoad litersToRefuel consumptionKmL
       savingsEuro costPerKm extraKms maxOneWayDistance].
  split.
  - intros H.
    assert (Hp : isNaN (mul (sub on off) l) = true).
    { apply orb_true_iff in H. destruct H as [H | H].
      - apply isNaN_mul_l. apply orb_true_iff in H. destruct H as [H | H].
        + apply isNaN_sub_l, H.
        + apply isNaN_sub_r, H.
      - apply isNaN_mul_r, H. }
    repeat split; apply isNaN_Math_max; auto using isNaN_div_l.
  - intros H. pose proof (isNaN_div_r off c H) as Hc.
    repeat split; [exact Hc | |]; apply isNaN_Math_max;
      auto using isNaN_div_l, isNaN_div_r.
Qed.

Lemma calculateSavings_NaN_witness :
  isNaN (extraKms (calculateSavings
                     (mkFuelData NaN (of_Z 1) (of_Z 25) (of_Z 18)))) = true
  /\ isNaN (costPerKm (calculateSavings
                         (mkFuelData (of_Z 2) (of_Z 1) (of_Z 25) NaN))) = true.
Proof.
  split.
  - exact (proj1 (proj2 (proj1 (calculateSavings_NaN
             (mkFuelData NaN (of_Z 1) (of_Z 25) (of_Z 18))) eq_refl))).
  - exact (proj1 (proj2 (calculateSavings_NaN
             (mkFuelData (of_Z 2) (of_Z 1) (of_Z 25) NaN)) eq_refl)).
Defined.

(** X4.  Division by zero.  Write [p] for the product
    [(priceOnRoad - priceOffRoad) * litersToRefuel].  With a positive
    finite off-route price and a consumption of zero, [costPerKm] is
    infinite, and when [p] is finite the break-even distance and the
    detour radius are zero.  With an off-route price of zero and a
    positive finite consumption, [costPerKm] is zero, and when [p] is
    above zero the break-even distance and the detour radius are
    [+Infinity]. *)
Theorem calculateSavings_division_by_zero (d : FuelData) :
  let r := calculateSavings d in
  let p := mul (sub (priceOnRoad d) (priceOffRoad d)) (litersToRefuel d) in
  (positiveFinite (priceOffRoad d) = true ->
   isZero (consumptionKmL d) = true ->
   isFinite p = true ->
   costPerKm r = Inf (sign (consumptionKmL d))
   /\ extraKms r = of_Z 0 /\ maxOneWayDistance r = of_Z 0)
  /\ (priceOffRoad d = of_Z 0 ->
      positiveFinite (consumptionKmL d) = true ->
      gt p (of_Z 0) = true ->
      costPerKm r = of_Z 0 /\ extraKms r = Inf false
      /\ maxOneWayDistance r = Inf false).
Proof.
  destruct d as [on off l c].
  cbn [calculateSavings priceOnRoad priceOffRoad litersToRefuel consumptionKmL
       savingsEuro costPerKm extraKms maxOneWayDistance].
  set (p := mul (sub on off) l). split.
  - intros (mo & eo & ->)%positiveFinite_inv Hz Hp.
    destruct c as [sc | | |]; try discriminate.
    destruct p as [sp | | | sp mp ep]; try discriminate;
      repeat split; destruct sp, sc; reflexivity.
  - intros -> (mc & ec & ->)%positiveFinite_inv Hp.
    destruct (gt_zero_inv _ Hp) as [-> | (mp & ep & ->)]; repeat split.
Qed.

Lemma calculateSavings_division_by_zero_witness :
  extraKms (calculateSavings (mkFuelData (of_Z 2) (of_Z 1) (of_Z 25) (of_Z 0)))
  = of_Z 0
  /\ extraKms (calculateSavings (mkFuelData (of_Z 2) (of_Z 0) (of_Z 25) (of_Z 18)))
     = Inf false.
Proof.
  split.
  - exact (proj1 (proj2 (proj1 (calculateSavings_division_by_zero
             (mkFuelData (of_Z 2) (of_Z 1) (of_Z 25) (of_Z 0)))
             eq_refl eq_refl eq_refl))).
  - exact (proj1 (proj2 (proj2 (calculateSavings_division_by_zero
             (mkFuelData (of_Z 2) (of_Z 0) (of_Z 25) (of_Z 18)))
             eq_refl eq_refl eq_refl))).
Defined.

End SavingsCalculatorMore.

(** ** Validation *)

Section Validation.

(** C3.  [validate] returns the "invalid value" message for [NaN];
    otherwise the "must be > 0" message for a value that is [<= 0]; for
    [priceOffRoad], the "must be lower than price A" message for a
    positive value that is [>=] the on-route price of the record; and no
    message for any other positive value.  With an on-route price of [2],
    [priceOffRoad] is valid for [0 < x < 2] and gets the cross-field
    message for [x >= 2].  The message is stored under the field. *)
Theorem validate_rules (render st : AppState) (field : Key.t) (value : number) :
  let error := fst (validate render field value st) in
  (isNaN value = true -> error = Msg.invalid)
  /\ (isNaN value = false -> le value (of_Z 0) = true ->
      error = Msg.notPositive)
  /\ (field = Key.priceOffRoad -> gt value (of_Z 0) = true ->
      ge value (priceOnRoad (data render)) = true -> error = Msg.notLower)
  /\ (gt value (of_Z 0) = true ->
      (field = Key.priceOffRoad ->
       ge value (priceOnRoad (data render)) = false) ->
      error = Msg.none)
  /\ (field = Key.priceOffRoad -> priceOnRoad (data render) = of_Z 2 ->
      (gt value (of_Z 0) = true -> lt value (of_Z 2) = true ->
       error = Msg.none)
      /\ (ge value (of_Z 2) = true -> error = Msg.notLower))
  /\ snd (validate render field value st)
     = {| data := data st; errors := <[field := error]> (errors st) |}.
Proof.
  cbn [validate bind setErrors ret fst snd].
  split; [| split; [| split; [| split; [| split]]]].
  - intros Hnan.
    rewrite (isNaN_ge_false value (priceOnRoad (data render)) Hnan).
    rewrite Hnan, andb_false_r. reflexivity.
  - intros Hnan Hle. rewrite Hnan, Hle.
    assert (gt value (of_Z 0) = false) as ->.
    { destruct (gt value (of_Z 0)) eqn:E; [| reflexivity].
      apply gt_le_false in E. destruct E; congruence. }
    rewrite andb_false_r. reflexivity.
  - intros -> Hgt Hge. rewrite Hgt, Hge.
    rewrite bool_decide_eq_true_2 by reflexivity. reflexivity.
  - intros Hgt Hfield. destruct (gt_le_false _ _ Hgt) as [-> ->].
    destruct (bool_decide (field = Key.priceOffRoad)) eqn:E; [| reflexivity].
    apply bool_decide_eq_true in E. rewrite (Hfield E). reflexivity.
  - intros -> Hon. rewrite Hon.
    rewrite bool_decide_eq_true_2 by reflexivity. split.
    + intros Hgt Hlt. destruct (gt_le_false _ _ Hgt) as [-> ->].
      rewrite (lt_ge_false _ _ Hlt). reflexivity.
    + intros Hge. rewrite Hge, (ge_two_gt_zero _ Hge). reflexivity.
  - reflexivity.
Qed.

Lemma validate_rules_witness :
  let two := {| data := mkFuelData (of_Z 2) (of_Z 1) (of_Z 25) (of_Z 18);
                errors := ∅ |} in
  fst (validate two Key.litersToRefuel NaN two) = Msg.invalid
  /\ fst (validate two Key.litersToRefuel (of_Z (-3)) two) = Msg.notPositive
  /\ fst (validate two Key.priceOffRoad (dec 25 1) two) = Msg.notLower
  /\ fst (validate two Key.consumptionKmL (of_Z 18) two) = Msg.none
  /\ fst (validate two Key.priceOffRoad (dec 1999 3) two) = Msg.none
  /\ fst (validate two Key.priceOffRoad (of_Z 2) two) = Msg.notLower.
Proof.
  intros two.
  pose proof (validate_rules two two Key.litersToRefuel NaN) as (H1 & _).
  pose proof (validate_rules two two Key.litersToRefuel (of_Z (-3)))
    as (_ & H2 & _).
  pose proof (validate_rules two two Key.priceOffRoad (dec 25 1))
    as (_ & _ & H3 & _).
  pose proof (validate_rules two two Key.consumptionKmL (of_Z 18))
    as (_ & _ & _ & H4 & _).
  pose proof (validate_rules two two Key.priceOffRoad (dec 1999 3))
    as (_ & _ & _ & _ & H5 & _).
  pose proof (validate_rules two two Key.priceOffRoad (of_Z 2))
    as (_ & _ & _ & _ & H6 & _).
  split; [exact (H1 eq_refl) |].
  split; [exact (H2 eq_refl eq_refl) |].
  split; [exact (H3 eq_refl eq_refl eq_refl) |].
  split; [apply (H4 eq_refl); intros H; discriminate H |].
  split; [exact (proj1 (H5 eq_refl eq_refl) eq_refl eq_refl) |].
  exact (proj2 (H6 eq_refl eq_refl) eq_refl).
Defined.

(** What an edit of [priceOnRoad] does: the new price is stored, and
    [priceOffRoad] is validated again, but both the off-route price that
    is validated and the on-route price it is compared with are those of
    the render that created the handler, from before the edit. *)
Lemma handleUpdate_priceOnRoad_errors (render st : AppState) (val : number) :
  let st' := snd (handleUpdate render Key.priceOnRoad val st) in
  data st' = setField Key.priceOnRoad val (data st)
  /\ (errors st' !! Key.priceOffRoad = Some Msg.notLower
      <-> gt (priceOffRoad (data render)) (of_Z 0) = true
          /\ ge (priceOffRoad (data render)) (priceOnRoad (data render)) = true).
Proof.
  unfold handleUpdate, validate, bind, setData, setErrors, ret.
  cbn [fst snd data errors]. rewrite !bool_decide_eq_true_2 by reflexivity.
  cbn [fst snd data errors]. split; [reflexivity |].
  rewrite lookup_insert_eq.
  set (off := priceOffRoad (data render)). set (on := priceOnRoad (data render)).
  cbn [andb].
  destruct (ge off on) eqn:Hge, (gt off (of_Z 0)) eqn:Hgt; cbn [andb].
  - split; [intros _; split; reflexivity | reflexivity].
  - split; [| intros [? ?]; discriminate].
    destruct (isNaN off); [discriminate |].
    destruct (le off (of_Z 0)); discriminate.
  - split; [| intros [? ?]; discriminate].
    destruct (isNaN off); [discriminate |].
    destruct (le off (of_Z 0)); discriminate.
  - split; [| intros [? ?]; discriminate].
    destruct (isNaN off); [discriminate |].
    destruct (le off (of_Z 0)); discriminate.
Qed.

(** C2, at the input where the code departs from it.  From the initial
    record the on-route price is edited to [1.5]: afterwards the
    off-route price [1.599] is positive and not below the new on-route
    price, and yet its stored message is the empty one, because it was
    compared with the old price [1.699]. *)
Theorem handleUpdate_priceOnRoad_stale :
  let st := dispatch (fun render => handleUpdate render Key.priceOnRoad (dec 15 1))
                     initialState in
  priceOnRoad (data st) = dec 15 1
  /\ priceOffRoad (data st) = dec 1599 3
  /\ gt (priceOffRoad (data st)) (of_Z 0) = true
  /\ ge (priceOffRoad (data st)) (priceOnRoad (data st)) = true
  /\ errors st !! Key.priceOffRoad = Some Msg.none
  /\ hasErrors (errors st) = false.
Proof. vm_compute. repeat split. Qed.

End Validation.

(** ** More on validation and edits *)

Section ErrorsMap.

Local Open Scope string_scope.

Lemma hasErrors_true_iff (errs : ValidationErrors) :
  hasErrors errs = true
  <-> exists field msg, errs !! field = Some msg /\ msg <> Msg.none.
Proof.
  unfold hasErrors. rewrite existsb_exists. split.
  - intros (msg & Hin & Hne). apply in_map_iff in Hin.
    destruct Hin as ([field msg'] & Heq & Hin). cbn in Heq. subst msg'.
    exists field, msg. split.
    + apply elem_of_map_to_list, list_elem_of_In, Hin.
    + intros ->. discriminate.
  - intros (field & msg & Hlook & Hne). exists msg. split.
    + apply in_map_iff. exists (field, msg). split; [reflexivity |].
      apply list_elem_of_In, elem_of_map_to_list, Hlook.
    + apply negb_true_iff, String.eqb_neq, Hne.
Qed.

Lemma hasErrors_false_iff (errs : ValidationErrors) :
  hasErrors errs = false
  <-> forall field msg, errs !! field = Some msg -> msg = Msg.none.
Proof.
  split.
  - intros H field msg Hlook.
    destruct (String.eqb_spec msg Msg.none) as [E | E]; [exact E |].
    assert (hasErrors errs = true) by (apply hasErrors_true_iff; eauto).
    congruence.
  - intros H. destruct (hasErrors errs) eqn:E; [| reflexivity].
    apply hasErrors_true_iff in E. destruct E as (field & msg & Hlook & Hne).
    elim Hne. eauto.
Qed.

(** X5.  [hasErrors] is true exactly when some field has a message that is
    not empty, and false exactly when every message stored is empty:
    a field never edited has no message and does not count. *)
Theorem hasErrors_spec (errs : ValidationErrors) :
  (hasErrors errs = true
   <-> exists field msg, errs !! field = Some msg /\ msg <> Msg.none)
  /\ (hasErrors errs = false
      <-> forall field msg, errs !! field = Some msg -> msg = Msg.none).
Proof. split; [apply hasErrors_true_iff | apply hasErrors_false_iff]. Qed.

Lemma hasErrors_spec_witness :
  hasErrors (<[Key.litersToRefuel := Msg.notPositive]>
               (<[Key.priceOnRoad := Msg.none]> ∅)) = true.
Proof.
  apply (proj2 (proj1 (hasErrors_spec
                         (<[Key.litersToRefuel := Msg.notPositive]>
                            (<[Key.priceOnRoad := Msg.none]> ∅))))).
  exists Key.litersToRefuel, Msg.notPositive.
  split; [reflexivity | discriminate].
Defined.

End ErrorsMap.

Section Edits.

Local Open Scope string_scope.

(** The message [validate] computes, without the state. *)
Lemma validate_state (render st : AppState) (field : Key.t) (value : number) :
  snd (validate render field value st)
  = {| data := data st;
       errors := <[field := fst (validate render field value st)]> (errors st) |}.
Proof. reflexivity. Qed.

Lemma validate_message_render (render st st' : AppState) field value :
  fst (validate render field value st) = fst (validate render field value st').
Proof. reflexivity. Qed.

Lemma getField_setField (field : Key.t) (val : number) (d : FuelData) :
  getField field (setField field val d) = val.
Proof. destruct field; reflexivity. Qed.

Lemma getField_setField_ne (f g : Key.t) (val : number) (d : FuelData) :
  f <> g -> getField g (setField f val d) = getField g d.
Proof. destruct f, g; intros H; try reflexivity; contradiction. Qed.

(** The state after an edit. *)
Lemma handleUpdate_state (render st : AppState) (field : Key.t) (val : number) :
  snd (handleUpdate render field val st)
  = {| data := setField field val (data st);
       errors :=
         if bool_decide (field = Key.priceOnRoad)
         then <[Key.priceOffRoad :=
                  fst (validate render Key.priceOffRoad
                         (priceOffRoad (data render)) st)]>
                (<[field := fst (validate render field val st)]> (errors st))
         else <[field := fst (validate render field val st)]> (errors st) |}.
Proof.
  unfold handleUpdate, bind, setData, ret.
  destruct (bool_decide (field = Key.priceOnRoad)); reflexivity.
Qed.

(** X6.  An edit stores the value whether it is valid or not, touches no
    other field of the record, stores the message of the edited field,
    and leaves the messages of the other fields alone, apart from the
    message of [priceOffRoad] when [priceOnRoad] is edited. *)
Theorem handleUpdate_frame (render st : AppState) (field : Key.t) (val : number) :
  let st' := snd (handleUpdate render field val st) in
  getField field (data st') = val
  /\ (forall g, g <> field -> getField g (data st') = getField g (data st))
  /\ errors st' !! field = Some (fst (validate render field val st))
  /\ (forall g, g <> field ->
        (field = Key.priceOnRoad -> g <> Key.priceOffRoad) ->
        errors st' !! g = errors st !! g).
Proof.
  cbv zeta. rewrite handleUpdate_state. cbn [data errors].
  split; [apply getField_setField |].
  split; [intros g Hg; apply getField_setField_ne; congruence |].
  destruct (bool_decide (field = Key.priceOnRoad)) eqn:E.
  - apply bool_decide_eq_true in E. subst field. split.
    + rewrite lookup_insert_ne by discriminate. apply lookup_insert_eq.
    + intros g Hg Hoff. specialize (Hoff eq_refl).
      rewrite !lookup_insert_ne by congruence. reflexivity.
  - split.
    + apply lookup_insert_eq.
    + intros g Hg _. rewrite lookup_insert_ne by congruence. reflexivity.
Qed.

Lemma handleUpdate_frame_witness :
  let st' := snd (handleUpdate initialState Key.priceOnRoad (of_Z (-1))
                    initialState) in
  getField Key.litersToRefuel (data st') = of_Z 25
  /\ errors st' !! Key.consumptionKmL = None.
Proof.
  pose proof (handleUpdate_frame initialState initialState Key.priceOnRoad
                (of_Z (-1))) as (_ & H1 & _ & H2).
  split.
  - exact (H1 Key.litersToRefuel ltac:(discriminate)).
  - exact (H2 Key.consumptionKmL ltac:(discriminate) ltac:(discriminate)).
Defined.

Lemma validate_message_invalid (render st : AppState) field value :
  isNaN value = true \/ le value (of_Z 0) = true ->
  fst (validate render field value st) <> Msg.none.
Proof.
  intros H. cbn [validate bind setErrors ret fst].
  assert (Hcross : bool_decide (field = Key.priceOffRoad)
                   && ge value (priceOnRoad (data render))
                   && gt value (of_Z 0) = false).
  { destruct H as [H | H].
    - rewrite (isNaN_ge_false _ _ H), andb_false_r. reflexivity.
    - destruct (gt value (of_Z 0)) eqn:E; [| apply andb_false_r].
      apply gt_le_false in E. destruct E; congruence. }
  rewrite Hcross. destruct (isNaN value); [discriminate |].
  destruct H as [H | H]; [discriminate |]. rewrite H. discriminate.
Qed.

(** X7.  An edit to a value that is not a number, or is zero or below, is
    always flagged, whatever the field and whatever was flagged before:
    afterwards [hasErrors] is true. *)
Theorem handleUpdate_invalid_flagged (render st : AppState) (field : Key.t)
    (val : number) :
  isNaN val = true \/ le val (of_Z 0) = true ->
  hasErrors (errors (snd (handleUpdate render field val st))) = true.
Proof.
  intros H. apply hasErrors_true_iff.
  exists field, (fst (validate render field val st)). split.
  - rewrite handleUpdate_state. cbn [errors].
    destruct (bool_decide (field = Key.priceOnRoad)) eqn:E.
    + apply bool_decide_eq_true in E. subst field.
      rewrite lookup_insert_ne by discriminate. apply lookup_insert_eq.
    + apply lookup_insert_eq.
  - apply validate_message_invalid, H.
Qed.

Lemma handleUpdate_invalid_flagged_witness :
  hasErrors (errors (dispatch (fun render =>
                        handleUpdate render Key.consumptionKmL (of_Z 0))
                      initialState)) = true.
Proof.
  exact (handleUpdate_invalid_flagged initialState initialState
           Key.consumptionKmL (of_Z 0) (or_intror eq_refl)).
Defined.

(** X8.  For a field other than [priceOnRoad], the state has errors after
    the edit exactly when the new value gets a message or another field
    had one. *)
Theorem handleUpdate_hasErrors (render st : AppState) (field : Key.t)
    (val : number) :
  field <> Key.priceOnRoad ->
  hasErrors (errors (snd (handleUpdate render field val st))) = true
  <-> fst (validate render field val st) <> Msg.none
      \/ exists g msg, g <> field /\ errors st !! g = Some msg
                       /\ msg <> Msg.none.
Proof.
  intros Hf. rewrite handleUpdate_state. cbn [errors].
  rewrite bool_decide_eq_false_2 by exact Hf.
  rewrite hasErrors_true_iff. split.
  - intros (g & msg & Hlook & Hne).
    destruct (decide (g = field)) as [-> | Hg].
    + rewrite lookup_insert_eq in Hlook. left. congruence.
    + rewrite lookup_insert_ne in Hlook by congruence. right. eauto.
  - intros [H | (g & msg & Hg & Hlook & Hne)].
    + exists field, (fst (validate render field val st)).
      split; [apply lookup_insert_eq | exact H].
    + exists g, msg. split; [| exact Hne].
      rewrite lookup_insert_ne by congruence. exact Hlook.
Qed.

Lemma handleUpdate_hasErrors_witness :
  hasErrors (errors (snd (handleUpdate initialState Key.priceOffRoad (of_Z 2)
                            initialState))) = true.
Proof.
  apply (proj2 (handleUpdate_hasErrors initialState initialState
                  Key.priceOffRoad (of_Z 2) ltac:(discriminate))).
  left. discriminate.
Defined.

End Edits.

(** ** The provincial price *)

Section ProvincialPrice.

Local Open Scope string_scope.

(** Removing the characters outside a class is filtering. *)
Lemma keepOnly_filter (p : ascii -> bool) (s : string) :
  list_ascii_of_string (keepOnly p s) = List.filter p (list_ascii_of_string s).
Proof.
  induction s as [| c s IH]; cbn; [reflexivity |].
  destruct (p c); cbn; rewrite IH; reflexivity.
Qed.

Lemma isPriceChar_not_white (c : ascii) :
  isPriceChar c = true -> isWhite c = false.
Proof.
  destruct c as [[] [] [] [] [] [] [] []]; vm_compute; congruence.
Qed.

Lemma noWhite_keepOnly (s : string) : noWhite (keepOnly isPriceChar s) = true.
Proof.
  induction s as [| c s IH]; [reflexivity |]. cbn [keepOnly].
  destruct (isPriceChar c) eqn:E; [| exact IH].
  cbn [noWhite]. rewrite (isPriceChar_not_white c E), IH. reflexivity.
Qed.

Lemma noWhite_replaceFirst (s : string) :
  noWhite s = true -> noWhite (replaceFirst "," "." s) = true.
Proof.
  induction s as [| c s IH]; [reflexivity |]. cbn [noWhite replaceFirst].
  intros [Hc Hs]%andb_true_iff. destruct (Ascii.eqb c ","); cbn [noWhite].
  - rewrite Hs. reflexivity.
  - rewrite Hc, (IH Hs). reflexivity.
Qed.

Lemma trim_noWhite (s : string) : noWhite s = true -> trim s = s.
Proof.
  intros H. unfold trim.
  assert (Hstart : trimStart s = s).
  { destruct s as [| c s]; [reflexivity |]. cbn in *.
    apply andb_true_iff in H. destruct H as [Hc _].
    apply negb_true_iff in Hc. rewrite Hc. reflexivity. }
  rewrite Hstart. clear Hstart.
  induction s as [| c s IH]; [reflexivity |]. cbn [noWhite] in H.
  apply andb_true_iff in H. destruct H as [Hc Hs].
  cbn [trimEnd]. rewrite (IH Hs).
  destruct s; [| reflexivity].
  apply negb_true_iff in Hc. rewrite Hc. reflexivity.
Qed.

(** In [applyProvincialPrice] there is nothing left for [trim] to
    remove. *)
Lemma cleaned_price_trim (priceStr : string) :
  trim (replaceFirst "," "." (keepOnly isPriceChar priceStr))
  = replaceFirst "," "." (keepOnly isPriceChar priceStr).
Proof. apply trim_noWhite, noWhite_replaceFirst, noWhite_keepOnly. Qed.

Example parseFloat_examples :
  parseFloat "1.799" = dec 1799 3
  /\ parseFloat "  -12.5e-1xyz" = dec (-125) 2
  /\ parseFloat "1.234.56" = dec 1234 3
  /\ parseFloat "5.e3" = of_Z 5000
  /\ parseFloat "-0" = NegZero
  /\ parseFloat "." = NaN
  /\ parseFloat "-" = NaN
  /\ parseFloat "" = NaN
  /\ parseFloat "-Infinity" = Inf true.
Proof. vm_compute. repeat split. Qed.

Lemma isPriceChar_spec (c : ascii) :
  isPriceChar c = existsb (Ascii.eqb c) (list_ascii_of_string priceCharacters).
Proof. destruct c as [[] [] [] [] [] [] [] []]; reflexivity. Qed.

(** What the code keeps of the text is what the specification keeps. *)
Lemma keepOnly_stripped (s : string) : keepOnly isPriceChar s = stripped s.
Proof.
  unfold stripped.
  rewrite <- (string_of_list_ascii_of_string (keepOnly isPriceChar s)).
  rewrite keepOnly_filter. f_equal.
  induction (list_ascii_of_string s) as [| c l IH]; [reflexivity |].
  cbn [List.filter]. rewrite IH, isPriceChar_spec. reflexivity.
Qed.

Lemma substring_all (s : string) : substring 0 (String.length s) s = s.
Proof. induction s as [| c s IH]; cbn; [reflexivity | rewrite IH; reflexivity]. Qed.

(** Replacing the first comma, by the position of the comma. *)
Lemma replaceFirst_firstCommaToDot (s : string) :
  replaceFirst "," "." s = firstCommaToDot s.
Proof.
  unfold firstCommaToDot. induction s as [| c s IH]; [reflexivity |].
  cbn [replaceFirst String.index String.prefix].
  destruct (Ascii.eqb_spec c ",") as [-> | Hc].
  - destruct (ascii_dec "," ",") as [_ | H]; [| contradiction].
    assert (Hp : String.prefix "" s = true) by (destruct s; reflexivity).
    rewrite Hp. cbn [substring String.length append Nat.sub].
    rewrite Nat.sub_0_r, substring_all. reflexivity.
  - destruct (ascii_dec "," c) as [E | _]; [congruence |].
    destruct (String.index 0 "," s) as [n |].
    + rewrite IH. reflexivity.
    + rewrite IH. reflexivity.
Qed.

(** C9.  The text is stripped of everything but digits, commas and dots,
    its first comma becomes a dot, and it is parsed.  If the result is a
    number, both prices become that number and both their messages
    become empty, while the litres, the consumption and the messages of
    the other fields stay as they were; if it is not, the state is
    unchanged.  The number is the one read from the text as the
    specification cleans it: [stripped] keeps the characters
    [0123456789,.] and no other, whatever the code's own functions
    do. *)
Theorem applyProvincialPrice_effect (priceStr : string) (st : AppState) :
  let num := parseFloat (firstCommaToDot (stripped priceStr)) in
  let st' := dispatch (fun _ => applyProvincialPrice priceStr) st in
  (isNaN num = false ->
     priceOnRoad (data st') = num
     /\ priceOffRoad (data st') = num
     /\ litersToRefuel (data st') = litersToRefuel (data st)
     /\ consumptionKmL (data st') = consumptionKmL (data st)
     /\ errors st' !! Key.priceOnRoad = Some Msg.none
     /\ errors st' !! Key.priceOffRoad = Some Msg.none
     /\ errors st' !! Key.litersToRefuel = errors st !! Key.litersToRefuel
     /\ errors st' !! Key.consumptionKmL = errors st !! Key.consumptionKmL)
  /\ (isNaN num = true -> st' = st).
Proof.
  unfold dispatch, applyProvincialPrice. cbv zeta.
  rewrite cleaned_price_trim, replaceFirst_firstCommaToDot, keepOnly_stripped.
  split; intros Hnum; rewrite Hnum; cbn.
  - repeat split.
    + rewrite lookup_insert_ne by discriminate. apply lookup_insert_eq.
    + apply lookup_insert_eq.
    + rewrite !lookup_insert_ne by discriminate. reflexivity.
    + rewrite !lookup_insert_ne by discriminate. reflexivity.
  - reflexivity.
Qed.

Lemma applyProvincialPrice_effect_witness :
  (priceOnRoad (data (dispatch (fun _ => applyProvincialPrice "EUR 1,799/l")
                               initialState)) = dec 1799 3
   /\ priceOffRoad (data (dispatch (fun _ => applyProvincialPrice "EUR 1,799/l")
                                   initialState)) = dec 1799 3)
  /\ dispatch (fun _ => applyProvincialPrice "N/A") initialState = initialState.
Proof.
  split.
  - pose proof (proj1 (applyProvincialPrice_effect "EUR 1,799/l" initialState)
                  eq_refl) as (H1 & H2 & _).
    split; [exact H1 | exact H2].
  - exact (proj2 (applyProvincialPrice_effect "N/A" initialState) eq_refl).
Defined.

End ProvincialPrice.

(** ** More on the provincial price *)

Section Parsing.

Local Open Scope string_scope.

Lemma parseFloat_unfold (s : string) :
  parseFloat s
  = let t := trimStart s in
    let '(negative, t) :=
      match t with
      | String "-" r => (true, r)
      | String "+" r => (false, r)
      | _ => (false, t)
      end in
    if String.prefix "Infinity" t then Inf negative
    else parseDecimal negative t.
Proof. reflexivity. Qed.

Lemma takeDigits_range (s : string) :
  Forall (fun d => 0 <= d)%Z (fst (takeDigits s)).
Proof.
  induction s as [| c s IH]; cbn [takeDigits]; [constructor |].
  destruct (isDigit c) eqn:E; [| constructor].
  destruct (takeDigits s) as [ds rest]. cbn [fst] in *. constructor; [| exact IH].
  unfold isDigit in E. apply andb_true_iff in E. destruct E as [E _].
  apply N.leb_le in E. unfold digitValue. lia.
Qed.

Lemma digitsValue_nonneg (ds : list Z) :
  Forall (fun d => 0 <= d)%Z ds -> (0 <= digitsValue ds)%Z.
Proof.
  assert (H : forall acc, (0 <= acc)%Z -> Forall (fun d => 0 <= d)%Z ds ->
            (0 <= fold_left (fun acc d => 10 * acc + d) ds acc)%Z).
  { induction ds as [| d ds IH]; intros acc Hacc Hds; cbn; [exact Hacc |].
    inversion Hds; subst. apply IH; [lia | assumption]. }
  intros Hds. apply H; [lia | exact Hds].
Qed.

Lemma sign_false_not_lt (x : number) :
  sign x = false -> lt x (of_Z 0) = false.
Proof. destruct x as [[] | [] | | [] m e]; try discriminate; reflexivity. Qed.

(** An unsigned decimal does not have the sign bit set: it is not a
    number, or zero or above, and never [-0]. *)
Lemma parseDecimal_unsigned (s : string) : sign (parseDecimal false s) = false.
Proof.
  unfold parseDecimal.
  pose proof (takeDigits_range s) as Hint.
  destruct (takeDigits s) as [intDigits afterInt]. cbn [fst] in Hint.
  assert (Hfrac : forall r, Forall (fun d => 0 <= d)%Z (fst (takeDigits r)))
    by apply takeDigits_range.
  set (frac := match afterInt with
               | String "." r => takeDigits r
               | _ => ([], afterInt)
               end).
  assert (Hf : Forall (fun d => 0 <= d)%Z (fst frac)).
  { unfold frac. destruct afterInt as [| c r]; [constructor |].
    destruct c as [[] [] [] [] [] [] [] []]; try constructor. apply Hfrac. }
  destruct frac as [fracDigits afterFrac]. cbn [fst] in Hf.
  assert (Hm : (0 <= digitsValue (intDigits ++ fracDigits))%Z).
  { apply digitsValue_nonneg, Forall_app. split; assumption. }
  set (m := digitsValue (intDigits ++ fracDigits)) in *.
  set (e := (exponentPart afterFrac - Z.of_nat (length fracDigits))%Z).
  assert (Hnum : sign (if (m =? 0)%Z then zero false
                       else of_Q (inject_Z m * pow10 e)%Q) = false).
  { destruct (m =? 0)%Z; [reflexivity |].
    rewrite (proj2 (of_Q_sign _)). apply Z.ltb_ge.
    assert (Hq : (0 <= inject_Z m * pow10 e)%Q).
    { apply Qmult_le_0_compat.
      - change 0%Q with (inject_Z 0). rewrite <- Zle_Qle. exact Hm.
      - apply Qlt_le_weak. unfold pow10. apply Qpower_0_lt. reflexivity. }
    unfold Qle in Hq. cbn [Qnum Qden] in Hq. lia. }
  destruct intDigits, fracDigits; [reflexivity | exact Hnum ..].
Qed.

Lemma priceChar_head (c : ascii) (r : string) :
  isPriceChar c = true ->
  match String c r with
  | String "-" r' => (true, r')
  | String "+" r' => (false, r')
  | _ => (false, String c r)
  end = (false, String c r)
  /\ String.prefix "Infinity" (String c r) = false.
Proof.
  destruct c as [[] [] [] [] [] [] [] []]; intros H;
    solve [ discriminate H | split; reflexivity ].
Qed.

Lemma trimStart_noWhite (s : string) : noWhite s = true -> trimStart s = s.
Proof.
  destruct s as [| c s]; [reflexivity |]. cbn.
  intros [Hc _]%andb_true_iff. apply negb_true_iff in Hc. rewrite Hc. reflexivity.
Qed.

Lemma allChars_noWhite (s : string) :
  allChars isPriceChar s = true -> noWhite s = true.
Proof.
  induction s as [| c s IH]; [reflexivity |]. cbn.
  intros [Hc Hs]%andb_true_iff.
  rewrite (isPriceChar_not_white c Hc), (IH Hs). reflexivity.
Qed.

Lemma allChars_keepOnly (p : ascii -> bool) (s : string) :
  allChars p (keepOnly p s) = true.
Proof.
  induction s as [| c s IH]; [reflexivity |]. cbn [keepOnly].
  destruct (p c) eqn:E; [| exact IH]. cbn. rewrite E, IH. reflexivity.
Qed.

Lemma allChars_replaceFirst (s : string) :
  allChars isPriceChar s = true ->
  allChars isPriceChar (replaceFirst "," "." s) = true.
Proof.
  induction s as [| c s IH]; [reflexivity |]. cbn [allChars replaceFirst].
  intros [Hc Hs]%andb_true_iff. destruct (Ascii.eqb c ","); cbn [allChars].
  - rewrite Hs. reflexivity.
  - rewrite Hc, (IH Hs). reflexivity.
Qed.

(** A text of digits, commas and dots parses as an unsigned decimal. *)
Lemma parseFloat_priceChars (s : string) :
  allChars isPriceChar s = true -> parseFloat s = parseDecimal false s.
Proof.
  intros H. rewrite parseFloat_unfold.
  rewrite (trimStart_noWhite s (allChars_noWhite s H)). cbv zeta.
  destruct s as [| c r]; [reflexivity |].
  cbn [allChars] in H. apply andb_true_iff in H. destruct H as [Hc _].
  destruct (priceChar_head c r Hc) as [-> ->]. reflexivity.
Qed.

End Parsing.

Section ProvincialPriceMore.

Local Open Scope string_scope.

(** X9.  Whatever the text, the price that [applyProvincialPrice] reads from
    it does not carry a minus sign: the sign is dropped with the other
    characters that are not digits, commas or dots, so the price is never
    negative and never [-0]. *)
Theorem provincial_price_unsigned (priceStr : string) :
  let num :=
    parseFloat (trim (replaceFirst "," "." (keepOnly isPriceChar priceStr))) in
  sign num = false /\ lt num (of_Z 0) = false.
Proof.
  cbv zeta. rewrite cleaned_price_trim.
  rewrite parseFloat_priceChars
    by apply allChars_replaceFirst, allChars_keepOnly.
  pose proof (parseDecimal_unsigned
                (replaceFirst "," "." (keepOnly isPriceChar priceStr))) as H.
  split; [exact H | apply sign_false_not_lt, H].
Qed.

Example provincial_price_examples :
  parseFloat (trim (replaceFirst "," "." (keepOnly isPriceChar "-1,799 EUR")))
  = dec 1799 3
  /\ parseFloat (trim (replaceFirst "," "." (keepOnly isPriceChar "1.234,56")))
     = dec 1234 3
  /\ parseFloat (trim (replaceFirst "," "." (keepOnly isPriceChar "n.d.")))
     = NaN
  /\ parseFloat (trim (replaceFirst "," "." (keepOnly isPriceChar "1e3")))
     = of_Z 13.
Proof. vm_compute. repeat split. Qed.

Lemma sub_self (x : number) : isFinite x = true -> sub x x = of_Z 0.
Proof.
  destruct x as [[] | | | s m e]; try discriminate; try reflexivity.
  intros _. unfold sub. cbn [SFsub]. rewrite Z.sub_diag. reflexivity.
Qed.

Lemma mul_zero_finite (x : number) :
  isFinite x = true -> isZero (mul (of_Z 0) x) = true.
Proof. destruct x; try discriminate; reflexivity. Qed.

Lemma div_zero_nonzero (x y : number) :
  isZero x = true -> isNaN y = false -> isZero y = false ->
  isZero (div x y) = true.
Proof.
  destruct x; try discriminate. destruct y; try discriminate; reflexivity.
Qed.

Lemma Math_max_zero_zero (x : number) :
  isZero x = true -> Math_max (of_Z 0) x = of_Z 0.
Proof. destruct x as [[] | | |]; try discriminate; reflexivity. Qed.

(** X10.  Applying a provincial price makes the two prices equal, so
    with a finite price, a finite volume and a cost per kilometre above
    zero the savings, the break-even distance and the detour radius are
    all zero. *)
Theorem applyProvincialPrice_zero_savings (priceStr : string) (st : AppState) :
  let num :=
    parseFloat (trim (replaceFirst "," "." (keepOnly isPriceChar priceStr))) in
  let r := calculateSavings
             (data (dispatch (fun _ => applyProvincialPrice priceStr) st)) in
  positiveFinite num = true ->
  isFinite (litersToRefuel (data st)) = true ->
  gt (costPerKm r) (of_Z 0) = true ->
  savingsEuro r = of_Z 0 /\ extraKms r = of_Z 0
  /\ maxOneWayDistance r = of_Z 0.
Proof.
  cbv zeta. unfold dispatch, applyProvincialPrice. cbv zeta.
  set (num := parseFloat _). intros Hnum Hl.
  destruct (positiveFinite_inv _ Hnum) as (mn & en & En).
  assert (Hnan : isNaN num = false) by (rewrite En; reflexivity).
  rewrite Hnan. cbn [negb bind setData setErrors snd data].
  cbn [calculateSavings savingsEuro extraKms maxOneWayDistance costPerKm].
  intros Hcost.
  rewrite (sub_self num) by (rewrite En; reflexivity).
  pose proof (mul_zero_finite _ Hl) as Hp.
  assert (Hraw : isZero (div (mul (of_Z 0) (litersToRefuel (data st)))
                             (div num (consumptionKmL (data st)))) = true).
  { apply div_zero_nonzero; [exact Hp | |];
      destruct (div num (consumptionKmL (data st))) as [| | |];
      try discriminate; reflexivity. }
  rewrite Math_max_zero_half.
  rewrite (Math_max_zero_zero _ Hp), (Math_max_zero_zero _ Hraw).
  repeat split.
Qed.

Lemma applyProvincialPrice_zero_savings_witness :
  extraKms (calculateSavings
              (data (dispatch (fun _ => applyProvincialPrice "1,799")
                              initialState))) = of_Z 0.
Proof.
  exact (proj1 (proj2 (applyProvincialPrice_zero_savings "1,799" initialState
                         eq_refl eq_refl eq_refl))).
Defined.

(** X11.  Applying the same text twice is applying it once. *)
Theorem applyProvincialPrice_idempotent (priceStr : string) (st : AppState) :
  dispatch (fun _ => applyProvincialPrice priceStr)
    (dispatch (fun _ => applyProvincialPrice priceStr) st)
  = dispatch (fun _ => applyProvincialPrice priceStr) st.
Proof.
  unfold dispatch, applyProvincialPrice. cbv zeta.
  set (num := parseFloat _).
  destruct (isNaN num) eqn:E;
    cbn [negb bind setData setErrors ret snd data errors litersToRefuel
         consumptionKmL]; [reflexivity |].
  f_equal. apply map_eq. intros g.
  destruct g;
    repeat (rewrite lookup_insert_eq || rewrite lookup_insert_ne by discriminate);
    reflexivity.
Qed.

(** X12.  After a price has been applied, the state has errors exactly when
    the volume or the consumption had a message: the messages of the two
    prices are gone, whatever they were. *)
Theorem applyProvincialPrice_hasErrors (priceStr : string) (st : AppState) :
  isNaN (parseFloat (trim (replaceFirst "," "."
                             (keepOnly isPriceChar priceStr)))) = false ->
  hasErrors (errors (dispatch (fun _ => applyProvincialPrice priceStr) st)) = true
  <-> exists g msg,
        (g = Key.litersToRefuel \/ g = Key.consumptionKmL)
        /\ errors st !! g = Some msg /\ msg <> Msg.none.
Proof.
  intros Hnum. unfold dispatch, applyProvincialPrice. cbv zeta.
  rewrite Hnum. cbn [negb bind setData setErrors snd errors].
  rewrite hasErrors_true_iff. split.
  - intros (g & msg & Hlook & Hne). exists g, msg.
    destruct g;
      repeat (rewrite lookup_insert_eq in Hlook
              || rewrite lookup_insert_ne in Hlook by discriminate).
    + congruence.
    + congruence.
    + auto.
    + auto.
  - intros (g & msg & Hg & Hlook & Hne). exists g, msg.
    split; [| exact Hne].
    destruct Hg as [-> | ->];
      rewrite !lookup_insert_ne by discriminate; exact Hlook.
Qed.

Lemma applyProvincialPrice_hasErrors_witness :
  hasErrors (errors (dispatch (fun _ => applyProvincialPrice "1,799")
     (dispatch (fun render => handleUpdate render Key.litersToRefuel (of_Z 0))
               initialState))) = true.
Proof.
  apply (proj2 (applyProvincialPrice_hasErrors "1,799" _ eq_refl)).
  exists Key.litersToRefuel, Msg.notPositive.
  split; [left; reflexivity | split; [reflexivity | discriminate]].
Defined.

End ProvincialPriceMore.

(** ** The chart series *)

Section ChartSeries.







Lemma chartLoop_unbounded (breakEven : number) (fuel : nat) :
  forall (d : number) (points : list ChartPoint),
    d = of_Z 0 \/ d = Inf false ->
    chartLoop fuel breakEven (Inf false) (Inf false) d points = None.
Proof.
  induction fuel as [| fuel IH]; intros d points Hd; [reflexivity |].
  cbn [chartLoop].
  destruct Hd as [-> | ->]; cbn; apply IH; right; reflexivity.
Qed.

(** With an infinite break-even distance the loop does not end. *)
Lemma chartData_infinite (fuel : nat) (results : CalculationResult) :
  extraKms results = Inf false -> chartData fuel false results = None.
Proof.
  intros H. unfold chartData. rewrite H.
  apply chartLoop_unbounded. left; reflexivity.
Qed.




(** Nor does every finite break-even distance give a series: when
    [extraKms * 1.3] overflows, the range and the step are infinite and
    the loop does not end. *)
Example chartData_range_overflow (fuel : nat) :
  let results := {| savingsEuro := of_Z 1;
                    extraKms := of_Z (15 * 10 ^ 307);
                    maxOneWayDistance := of_Z (75 * 10 ^ 306);
                    costPerKm := dec 1 3 |} in
  isFinite (extraKms results) = true
  /\ chartData fuel false results = None.
Proof.
  intros results. split; [vm_compute; reflexivity |].
  unfold chartData. cbv zeta.
  assert (E : Math_max (mul (extraKms results) (dec 13 1)) (of_Z 5) = Inf false)
    by (vm_compute; reflexivity).
  rewrite E. change (div (Inf false) (of_Z 100)) with (Inf false).
  apply chartLoop_unbounded. left; reflexivity.
Qed.

End ChartSeries.

Section ChartMore.

Lemma extraKms_infinite_consumption (d : FuelData) :
  positiveFinite (priceOffRoad d) = true ->
  gt (savingsEuro (calculateSavings d)) (of_Z 0) = true ->
  consumptionKmL d = Inf false ->
  extraKms (calculateSavings d) = Inf false.
Proof.
  destruct d as [on off l c].
  cbn [priceOffRoad consumptionKmL]. intros Hoff Hs ->.
  cbv beta iota zeta delta [calculateSavings extraKms savingsEuro] in *.
  destruct (positiveFinite_inv _ Hoff) as (m & e & E).
  destruct (mul (sub on off) l) as [[] | [] | | [] m' e'];
    try discriminate Hs; rewrite E; reflexivity.
Qed.

Lemma validate_infinite (render st : AppState) (field : Key.t) :
  field <> Key.priceOffRoad ->
  fst (validate render field (Inf false) st) = Msg.none.
Proof.
  intros H. cbn [validate bind setErrors ret fst isNaN].
  rewrite bool_decide_eq_false_2 by exact H. reflexivity.
Qed.

Lemma hasErrors_insert_none (errs : ValidationErrors) (field : Key.t) :
  hasErrors errs = false -> hasErrors (<[field := Msg.none]> errs) = false.
Proof.
  rewrite !hasErrors_false_iff. intros H g msg Hlook.
  destruct (decide (g = field)) as [-> | Hg].
  - rewrite lookup_insert_eq in Hlook. congruence.
  - rewrite lookup_insert_ne in Hlook by congruence. eauto.
Qed.

(** X13.  An infinite consumption passes validation, and where there is
    a saving with it the loop that builds the chart never ends: whatever
    the number of iterations allowed, it has not returned. *)
Theorem chartData_infinite_consumption (st : AppState) (fuel : nat) :
  hasErrors (errors st) = false ->
  positiveFinite (priceOffRoad (data st)) = true ->
  gt (savingsEuro (calculateSavings (data st))) (of_Z 0) = true ->
  let st' := dispatch (fun render =>
                         handleUpdate render Key.consumptionKmL (Inf false)) st in
  hasErrors (errors st') = false /\ appChartData fuel st' = None.
Proof.
  intros He Hoff Hs st'. subst st'. unfold dispatch.
  assert (Hst : snd (handleUpdate st Key.consumptionKmL (Inf false) st)
                = {| data := setField Key.consumptionKmL (Inf false) (data st);
                     errors := <[Key.consumptionKmL := Msg.none]> (errors st) |}).
  { rewrite handleUpdate_state.
    rewrite bool_decide_eq_false_2 by discriminate.
    rewrite validate_infinite by discriminate. reflexivity. }
  rewrite Hst. clear Hst.
  assert (Herr : hasErrors (<[Key.consumptionKmL := Msg.none]> (errors st)) = false)
    by apply hasErrors_insert_none, He.
  split; [exact Herr |].
  unfold appChartData. cbn [data errors]. rewrite Herr.
  apply chartData_infinite, extraKms_infinite_consumption.
  - exact Hoff.
  - destruct (data st). exact Hs.
  - reflexivity.
Qed.

Lemma chartData_infinite_consumption_witness :
  hasErrors (errors (dispatch (fun render =>
                        handleUpdate render Key.consumptionKmL (Inf false))
                      initialState)) = false
  /\ appChartData 1000 (dispatch (fun render =>
                          handleUpdate render Key.consumptionKmL (Inf false))
                        initialState) = None.
Proof.
  exact (chartData_infinite_consumption initialState 1000
           eq_refl eq_refl eq_refl).
Defined.

End ChartMore.

(** ** The stepped numeric input *)

Import SmartNumberInput.

Section TextField.

Local Open Scope string_scope.

Example numericPattern_examples :
  test numericPattern "" = true
  /\ test numericPattern "-" = true
  /\ test numericPattern "12,5" = true
  /\ test numericPattern "-.5" = true
  /\ test numericPattern "1.2.3" = false
  /\ test numericPattern "1e5" = false
  /\ test numericPattern "--1" = false
  /\ test numericPattern "1 " = false.
Proof. vm_compute. repeat split. Qed.

(** C10.  A keystroke that leaves a text outside the pattern
    [-?[0-9]*[.,]?[0-9]*] changes nothing: the state of the input is the
    same, so the text shown stays, the value stays, and [onChange] has
    not been called. *)
Theorem handleInputChange_rejects (original : string) (st : state) :
  test numericPattern original = false ->
  handleInputChange original st = st
  /\ inputValue (step st (Change original)) = inputValue st
  /\ value (step st (Change original)) = value st
  /\ onChangeCalls (step st (Change original)) = onChangeCalls st.
Proof.
  intros H. cbn [step]. unfold handleInputChange. rewrite H. repeat split.
Qed.

Lemma handleInputChange_rejects_witness :
  test numericPattern "1.2.3" = false
  /\ handleInputChange "1.2.3" (mount (dec 12 1) "1.2") = mount (dec 12 1) "1.2".
Proof.
  split; [reflexivity |].
  exact (proj1 (handleInputChange_rejects "1.2.3" (mount (dec 12 1) "1.2")
                  eq_refl)).
Defined.

End TextField.

Section OwnerValue.

Lemma Object_is_eq (x y : number) : Object_is x y = true -> x = y.
Proof.
  destruct x as [a | a | | a m e], y as [b | b | | b n f]; cbn;
    try discriminate; try reflexivity.
  - intros H. apply eqb_prop in H. congruence.
  - intros H. apply eqb_prop in H. congruence.
  - intros H. apply andb_true_iff in H. destruct H as [H He].
    apply andb_true_iff in H. destruct H as [Hs Hm].
    apply eqb_prop in Hs. apply Pos.eqb_eq in Hm. apply Z.eqb_eq in He.
    congruence.
Qed.

(** What the effect on [value] leaves as it is, and what it sets. *)
Lemma newValue_fields (v : number) (st : state) :
  timerRef (newValue v st) = timerRef st
  /\ initialDelayRef (newValue v st) = initialDelayRef st
  /\ timers (newValue v st) = timers st
  /\ nextTimerId (newValue v st) = nextTimerId st
  /\ onChangeCalls (newValue v st) = onChangeCalls st
  /\ value (newValue v st) = v.
Proof.
  unfold newValue. destruct (Object_is v (value st)) eqn:E;
    repeat split; try reflexivity.
  symmetry. apply Object_is_eq, E.
Qed.

Lemma valueRef_newValue (v : number) (st : state) :
  valueRef st = value st -> valueRef (newValue v st) = value (newValue v st).
Proof.
  intros H. unfold newValue. destruct (Object_is v (value st));
    [exact H | reflexivity].
Qed.

Lemma onChange_fields (r : report) (st : state) :
  timerRef (onChange r st) = timerRef st
  /\ initialDelayRef (onChange r st) = initialDelayRef st
  /\ timers (onChange r st) = timers st
  /\ nextTimerId (onChange r st) = nextTimerId st
  /\ onChangeCalls (onChange r st) = (onChangeCalls st ++ [r])%list
  /\ value (onChange r st) = reported r.
Proof.
  destruct (newValue_fields (reported r) st) as (H1 & H2 & H3 & H4 & H5 & H6).
  unfold onChange.
  cbn [timerRef initialDelayRef timers nextTimerId onChangeCalls value].
  rewrite H1, H2, H3, H4, H5, H6. repeat split.
Qed.

End OwnerValue.

Section Invariant.

Lemma wellFormed_mount v text : wellFormed (mount v text).
Proof. repeat split. Qed.

Lemma stopAdjusting_idle st : wellFormed st -> stopAdjusting st = idle st.
Proof.
  intros (Hn & Hv & Ht). destruct st as [v text vr tr ir ts n log].
  cbn in *. unfold stopAdjusting, idle, clearIfSet, clearTimeout, setTimers,
    setTimerRef, setInitialDelayRef, truthy. cbn.
  destruct ts as [| t [| ? ?]]; [| | contradiction].
  - destruct tr as [a |], ir as [b |]; cbn;
      repeat (match goal with |- context [negb ?c] => destruct c end; cbn); reflexivity.
  - destruct Ht as (Hid & Hrem & Hact).
    assert (Hz : (timerId t =? 0)%Z = false) by (apply Z.eqb_neq; lia).
    destruct (action t) as [d | d sp c]; cbn in Hact.
    + subst ir. destruct tr as [a |]; cbn.
      * destruct (a =? 0)%Z; cbn; [| destruct (timerId t =? a)%Z eqn:E; cbn];
          rewrite ?Hz; cbn; rewrite ?Z.eqb_refl; cbn; reflexivity.
      * rewrite Hz. cbn. rewrite Z.eqb_refl. reflexivity.
    + destruct Hact as [-> Hsp]. cbn. rewrite Hz. cbn. rewrite Z.eqb_refl. cbn.
      destruct ir as [b |]; cbn; [destruct (b =? 0)%Z; cbn |]; reflexivity.
Qed.

Lemma wellFormed_idle st : wellFormed st -> wellFormed (idle st).
Proof. intros (Hn & Hv & _). repeat split; assumption. Qed.

Lemma wellFormed_stopAdjusting st : wellFormed st -> wellFormed (stopAdjusting st).
Proof. intros H. rewrite stopAdjusting_idle by assumption. apply wellFormed_idle, H. Qed.

Lemma wellFormed_newValue v st : wellFormed st -> wellFormed (newValue v st).
Proof.
  intros H. unfold newValue. destruct (Object_is v (value st)); [exact H |].
  destruct H as (Hn & Hv & Ht). split; [exact Hn | split; [reflexivity |]].
  cbn. destruct (timers st) as [| t [| ? ?]]; auto.
Qed.

Lemma wellFormed_onChange r st : wellFormed st -> wellFormed (onChange r st).
Proof.
  intros H. apply (wellFormed_newValue (reported r)) in H. unfold onChange.
  destruct (newValue (reported r) st). exact H.
Qed.

Lemma wellFormed_performUpdate d st : wellFormed st -> wellFormed (performUpdate d st).
Proof. apply wellFormed_onChange. Qed.

Lemma wellFormed_startAdjusting delta st :
  wellFormed st -> wellFormed (startAdjusting delta st).
Proof.
  intros H. unfold startAdjusting. rewrite stopAdjusting_idle by assumption.
  assert (Hi : wellFormed (performUpdate delta (idle st)))
    by apply wellFormed_performUpdate, wellFormed_idle, H.
  assert (Ht : timers (performUpdate delta (idle st)) = [])
    by apply onChange_fields.
  destruct (performUpdate delta (idle st)) as [v text vr tr ir ts n log].
  cbn in Ht. subst ts. destruct Hi as (Hn & Hv & _). cbn in *.
  repeat split; cbn; lia || assumption.
Qed.

Lemma wellFormed_setInputValue text st :
  wellFormed st -> wellFormed (setInputValue text st).
Proof.
  intros (Hn & Hv & Ht). split; [exact Hn | split; [exact Hv |]].
  cbn. destruct (timers st) as [| t [| ? ?]]; auto.
Qed.

Lemma wellFormed_handleInputChange text st :
  wellFormed st -> wellFormed (handleInputChange text st).
Proof.
  intros H. unfold handleInputChange.
  pose proof (wellFormed_setInputValue text st H) as Hs.
  destruct (test numericPattern text); [| exact H].
  destruct (negb _); [apply wellFormed_onChange, Hs |].
  destruct (_ || _)%bool; [apply wellFormed_onChange, Hs | exact Hs].
Qed.

Lemma wellFormed_fire (t : timer) st :
  wellFormed st -> timers st = [] ->
  match action t with Run _ speed _ => (0 < speed)%Z | _ => True end ->
  wellFormed (fire (action t) st).
Proof.
  intros Hwf Hts Hact. destruct (action t) as [d | d sp c].
  - destruct Hwf as (Hn & Hv & _).
    cbn. rewrite Hts. repeat split; cbn; try lia. exact Hv.
  - unfold fire.
    assert (Hi : wellFormed (performUpdate d st))
      by apply wellFormed_performUpdate, Hwf.
    assert (Ht : timers (performUpdate d st) = [])
      by (rewrite <- Hts; apply onChange_fields).
    destruct (performUpdate d st) as [v text vr tr ir ts n log].
    cbn in Ht. subst ts. destruct Hi as (Hn & Hv & _). cbn in *.
    assert (0 < (if (c + 1 =? 30)%Z then 15 else if (c + 1 =? 10)%Z then 40 else sp))%Z.
    { destruct (c + 1 =? 30)%Z, (c + 1 =? 10)%Z; lia. }
    repeat split; cbn; lia || assumption.
Qed.

Lemma wellFormed_tick st : wellFormed st -> wellFormed (tick st).
Proof.
  intros H. pose proof H as (Hn & Hv & Ht). unfold tick.
  destruct (timers st) as [| t [| ? ?]] eqn:Hts; [| | contradiction].
  - cbn. repeat split; cbn; auto.
  - cbn [map length fireDue]. cbn [setTimers timers takeDue remaining].
    destruct Ht as (Hid & Hrem & Hact).
    destruct (remaining t - 1 <=? 0)%Z eqn:Hdue.
    + cbn [action]. apply wellFormed_fire.
      * repeat split; cbn; auto.
      * reflexivity.
      * destruct (action t); [exact I | apply Hact].
    + apply Z.leb_gt in Hdue. split; [exact Hn | split; [exact Hv |]].
      cbn. repeat split; cbn; auto.
Qed.

Lemma wellFormed_elapse ms : forall st, wellFormed st -> wellFormed (elapse ms st).
Proof.
  induction ms as [| ms IH]; intros st H; [exact H |].
  cbn. apply IH, wellFormed_tick, H.
Qed.

Lemma wellFormed_step st e : wellFormed st -> wellFormed (step st e).
Proof.
  intros H. destruct e; cbn [step].
  - apply wellFormed_startAdjusting, H.
  - apply wellFormed_stopAdjusting, H.
  - apply wellFormed_stopAdjusting, H.
  - apply wellFormed_handleInputChange, H.
  - apply wellFormed_setInputValue, H.
  - apply wellFormed_newValue, H.
  - apply wellFormed_elapse, H.
Qed.

Lemma wellFormed_run es : forall st, wellFormed st -> wellFormed (run es st).
Proof.
  induction es as [| e es IH]; intros st H; [exact H |].
  cbn. apply IH, wellFormed_step, H.
Qed.

(** With no timer pending, time passes without effect. *)
Lemma elapse_no_timers ms : forall st, timers st = [] -> elapse ms st = st.
Proof.
  induction ms as [| ms IH]; intros st H; [reflexivity |].
  cbn [elapse]. assert (tick st = st) as ->.
  { unfold tick. rewrite H. destruct st; cbn in *; subst; reflexivity. }
  apply IH, H.
Qed.

End Invariant.

Section Log.

Context (l : list report).

(** The component never reads [onChangeCalls]: what it does after a
    longer history is what it does after a shorter one, with the longer
    history in front. *)
Lemma onChange_prependLog r st :
  onChange r (prependLog l st) = prependLog l (onChange r st).
Proof.
  unfold onChange, prependLog, newValue. cbn [value].
  destruct (Object_is (reported r) (value st)); cbn;
    rewrite app_assoc; reflexivity.
Qed.

Lemma performUpdate_prependLog d st :
  performUpdate d (prependLog l st) = prependLog l (performUpdate d st).
Proof. unfold performUpdate. rewrite onChange_prependLog. reflexivity. Qed.

Lemma fire_prependLog a st :
  fire a (prependLog l st) = prependLog l (fire a st).
Proof.
  destruct a as [d | d sp c]; [reflexivity |].
  unfold fire. rewrite performUpdate_prependLog. reflexivity.
Qed.

Lemma fireDue_prependLog n : forall st,
  fireDue n (prependLog l st) = prependLog l (fireDue n st).
Proof.
  induction n as [| n IH]; intros st; [reflexivity |].
  cbn [fireDue]. change (timers (prependLog l st)) with (timers st).
  destruct (takeDue (timers st)) as [[t rest] |]; [| reflexivity].
  change (setTimers rest (prependLog l st)) with (prependLog l (setTimers rest st)).
  rewrite fire_prependLog. apply IH.
Qed.

Lemma tick_prependLog st : tick (prependLog l st) = prependLog l (tick st).
Proof.
  unfold tick. change (timers (prependLog l st)) with (timers st).
  set (ts := map _ (timers st)).
  change (setTimers ts (prependLog l st)) with (prependLog l (setTimers ts st)).
  apply fireDue_prependLog.
Qed.

Lemma elapse_prependLog ms : forall st,
  elapse ms (prependLog l st) = prependLog l (elapse ms st).
Proof.
  induction ms as [| ms IH]; intros st; [reflexivity |].
  cbn [elapse]. rewrite tick_prependLog. apply IH.
Qed.

Lemma startAdjusting_idle_prependLog delta st :
  startAdjusting delta (prependLog l (idle st))
  = prependLog l (startAdjusting delta (idle st)).
Proof.
  unfold startAdjusting.
  change (stopAdjusting (prependLog l (idle st))) with (prependLog l (idle st)).
  change (stopAdjusting (idle st)) with (idle st).
  rewrite performUpdate_prependLog. reflexivity.
Qed.

End Log.

Section Timing.

Ltac tuples :=
  repeat match goal with
         | H : (_, _) = (_, _) |- _ => injection H; clear H; intros
         end;
  first [ congruence
        | rewrite ?length_app, ?map_app; cbn;
          repeat match goal with
                 | |- context [timerKind (mkTimer ?i ?r ?a)] =>
                     change (timerKind (mkTimer i r a))
                       with (i, r, callbackKind a)
                 end;
          cbn [callbackKind]; congruence ].

(** The timing does not depend on the numbers: two states with the same
    schedule have the same schedule after the same operation, whatever
    the values and the steps. *)
Lemma schedule_newValue (v : number) (st : state) :
  schedule (newValue v st) = schedule st.
Proof. unfold newValue. destruct (Object_is v (value st)); reflexivity. Qed.

Lemma schedule_onChange (r r' : report) (st st' : state) :
  schedule st = schedule st' ->
  schedule (onChange r st) = schedule (onChange r' st').
Proof.
  intros H.
  destruct (onChange_fields r st) as (H1 & H2 & H3 & H4 & H5 & _).
  destruct (onChange_fields r' st') as (K1 & K2 & K3 & K4 & K5 & _).
  unfold schedule in *. rewrite H1, H2, H3, H4, H5, K1, K2, K3, K4, K5.
  tuples.
Qed.

Lemma schedule_performUpdate (d d' : number) (st st' : state) :
  schedule st = schedule st' ->
  schedule (performUpdate d st) = schedule (performUpdate d' st').
Proof. apply schedule_onChange. Qed.

Lemma schedule_setTimers (ts ts' : list timer) (st st' : state) :
  schedule st = schedule st' -> map timerKind ts = map timerKind ts' ->
  schedule (setTimers ts st) = schedule (setTimers ts' st').
Proof.
  unfold schedule. cbn. intros H Ht. tuples.
Qed.

Lemma schedule_fire (a a' : callback) (st st' : state) :
  callbackKind a = callbackKind a' -> schedule st = schedule st' ->
  schedule (fire a st) = schedule (fire a' st').
Proof.
  intros Ha H. destruct a as [d | d sp c], a' as [d' | d' sp' c'];
    try discriminate Ha.
  - unfold schedule in *. cbn. tuples.
  - injection Ha as -> ->. unfold fire.
    pose proof (schedule_performUpdate d d' st st' H) as Hp.
    destruct (performUpdate d st), (performUpdate d' st').
    unfold schedule in *. cbn in *. tuples.
Qed.

Lemma takeDue_kinds (ts : list timer) :
  forall ts', map timerKind ts = map timerKind ts' ->
    match takeDue ts, takeDue ts' with
    | Some (t, rest), Some (t', rest') =>
        callbackKind (action t) = callbackKind (action t')
        /\ map timerKind rest = map timerKind rest'
    | None, None => True
    | _, _ => False
    end.
Proof.
  induction ts as [| t ts IH]; intros [| t' ts'] H; try discriminate H.
  - exact I.
  - cbn [map] in H.
    assert (Ht : timerKind t = timerKind t') by congruence.
    assert (Hts : map timerKind ts = map timerKind ts') by congruence.
    unfold timerKind in Ht.
    assert (Hid : timerId t = timerId t') by congruence.
    assert (Hrem : remaining t = remaining t') by congruence.
    assert (Hact : callbackKind (action t) = callbackKind (action t'))
      by congruence.
    clear H Ht. cbn [takeDue]. rewrite Hrem.
    destruct (remaining t' <=? 0)%Z; [split; assumption |].
    specialize (IH ts' Hts).
    destruct (takeDue ts) as [[u rest] |], (takeDue ts') as [[u' rest'] |];
      try contradiction; [| exact I].
    destruct IH as [Hu Hrest]. split; [exact Hu |].
    cbn [map]. unfold timerKind at 1 3. rewrite Hid, Hrem, Hact, Hrest.
    reflexivity.
Qed.

Lemma schedule_timers (st st' : state) :
  schedule st = schedule st' -> map timerKind (timers st) = map timerKind (timers st').
Proof. unfold schedule. intros H. tuples. Qed.

Lemma schedule_fireDue (n : nat) :
  forall st st', schedule st = schedule st' ->
                 schedule (fireDue n st) = schedule (fireDue n st').
Proof.
  induction n as [| n IH]; intros st st' H; [exact H |].
  cbn [fireDue]. pose proof (takeDue_kinds _ _ (schedule_timers st st' H)) as Hd.
  destruct (takeDue (timers st)) as [[t rest] |],
           (takeDue (timers st')) as [[t' rest'] |]; try contradiction;
    [| exact H].
  destruct Hd as [Ha Hrest].
  apply IH, schedule_fire; [exact Ha |].
  apply schedule_setTimers; assumption.
Qed.

Lemma map_timerKind_tick (ts : list timer) :
  map timerKind
      (map (fun t => mkTimer (timerId t) (remaining t - 1) (action t)) ts)
  = map (fun k : Z * Z * option (Z * Z) => (fst (fst k), snd (fst k) - 1, snd k)%Z)
        (map timerKind ts).
Proof.
  induction ts as [| t ts IH]; [reflexivity |].
  cbn [map]. rewrite IH. reflexivity.
Qed.

Lemma schedule_tick (st st' : state) :
  schedule st = schedule st' -> schedule (tick st) = schedule (tick st').
Proof.
  intros H. pose proof (schedule_timers st st' H) as Ht. unfold tick.
  assert (Hlen : length (timers st) = length (timers st')).
  { rewrite <- (length_map timerKind (timers st)), Ht. apply length_map. }
  rewrite !length_map, Hlen. apply schedule_fireDue, schedule_setTimers;
    [exact H |].
  rewrite !map_timerKind_tick, Ht. reflexivity.
Qed.

Lemma schedule_elapse (ms : nat) :
  forall st st', schedule st = schedule st' ->
                 schedule (elapse ms st) = schedule (elapse ms st').
Proof.
  induction ms as [| ms IH]; intros st st' H; [exact H |].
  cbn [elapse]. apply IH, schedule_tick, H.
Qed.

(** A press on an idle control: the schedule is that of a press with the
    step [0] on a control that shows [0]. *)
Lemma schedule_hold (v vr delta : number) (text : string) (n : Z) (ms : nat) :
  schedule (elapse ms (startAdjusting delta (fresh v vr text n)))
  = schedule (elapse ms (startAdjusting (of_Z 0)
                           (fresh (of_Z 0) (of_Z 0) EmptyString n))).
Proof.
  apply schedule_elapse. unfold startAdjusting.
  change (stopAdjusting (fresh v vr text n)) with (fresh v vr text n).
  change (stopAdjusting (fresh (of_Z 0) (of_Z 0) EmptyString n))
    with (fresh (of_Z 0) (of_Z 0) EmptyString n).
  pose proof (schedule_performUpdate delta (of_Z 0) (fresh v vr text n)
                (fresh (of_Z 0) (of_Z 0) EmptyString n) eq_refl) as Hp.
  destruct (performUpdate delta (fresh v vr text n)),
           (performUpdate (of_Z 0) (fresh (of_Z 0) (of_Z 0) EmptyString n)).
  unfold schedule in *. cbn in *. tuples.
Qed.

Lemma schedule_reports (st st' : state) :
  schedule st = schedule st' ->
  length (onChangeCalls st) = length (onChangeCalls st').
Proof. unfold schedule. intros H. tuples. Qed.

End Timing.

Section Hold.

Lemma hold_fresh (v vr delta : number) (text : string) (n : Z) (ms : nat) :
  (ms <= 1000)%nat ->
  length (onChangeCalls (elapse ms (startAdjusting delta (fresh v vr text n))))
  = expectedReports ms.
Proof.
  intros Hms. rewrite (schedule_reports _ _ (schedule_hold v vr delta text n ms)).
  assert (H : forallb (fun ms =>
            Nat.eqb (length (onChangeCalls
                       (elapse ms (startAdjusting (of_Z 0)
                                     (fresh (of_Z 0) (of_Z 0) EmptyString n)))))
                    (expectedReports ms)) (seq 0 1001) = true).
  { vm_compute. reflexivity. }
  rewrite forallb_forall in H. apply Nat.eqb_eq, H, in_seq. lia.
Qed.

(** Past the ten and the thirty repeats the interval drops to 40 ms and
    to 15 ms: repeats 1 to 10 come at 480, ..., 1200 ms, repeats 11 to 30
    at 1240, ..., 2000 ms, and the next ones at 2015, 2030, ... ms. *)
Example hold_accelerates (v vr delta : number) (text : string) (n : Z) :
  map (fun ms =>
         length (onChangeCalls
                   (elapse ms (startAdjusting delta (fresh v vr text n)))))
      [1199; 1200; 1239; 1240; 1999; 2000; 2014; 2015; 2030; 3000]%nat
  = [10; 11; 11; 12; 30; 31; 31; 32; 33; 97]%nat.
Proof.
  cbn [map].
  rewrite !(fun ms => schedule_reports _ _ (schedule_hold v vr delta text n ms)).
  vm_compute. reflexivity.
Qed.

Lemma hold_any (st : state) (delta : number) (ms : nat) :
  wellFormed st -> (ms <= 1000)%nat ->
  length (onChangeCalls (elapse ms (startAdjusting delta st)))
  = (length (onChangeCalls st) + expectedReports ms)%nat.
Proof.
  intros Hwf Hms.
  assert (E : startAdjusting delta st = startAdjusting delta (idle st)).
  { unfold startAdjusting. rewrite (stopAdjusting_idle st Hwf). reflexivity. }
  rewrite E.
  assert (Eidle : idle st = prependLog (onChangeCalls st)
                    (idle (fresh (value st) (valueRef st) (inputValue st) (nextTimerId st)))).
  { unfold idle, prependLog, fresh. cbn. rewrite app_nil_r. reflexivity. }
  rewrite Eidle, startAdjusting_idle_prependLog, elapse_prependLog.
  cbn [prependLog onChangeCalls]. rewrite length_app.
  change (idle (fresh ?a ?b ?c ?d)) with (fresh a b c d).
  rewrite hold_fresh by assumption. reflexivity.
Qed.

End Hold.

Section Reports.




Lemma onChangeCalls_stopAdjusting st :
  onChangeCalls (stopAdjusting st) = onChangeCalls st.
Proof.
  destruct st as [v text vr tr ir ts n log].
  unfold stopAdjusting, clearIfSet, clearTimeout.
  destruct tr as [a |], ir as [b |]; cbn;
    repeat (match goal with |- context [if ?c then _ else _] => destruct c end; cbn);
    reflexivity.
Qed.









End Reports.

Section Rounding.

Local Open Scope Q_scope.







End Rounding.

Section PressAndHold.

Local Open Scope Q_scope.

(** C6.  After any history, a press that is held adds, for the first
    1000 ms, one report at once and then [floor((ms - 400) / 80)] more
    once the initial delay of 400 ms is over; held for 1000 ms and then
    released it has added exactly 8.  A release or a pointer leaving the
    button, in whatever state, leaves no timer pending, and no report is
    added however long one waits afterwards. *)
Theorem press_and_hold_reports (es : list event) (v delta : number) (text : string) :
  let st := run es (mount v text) in
  (forall ms : nat, (ms <= 1000)%nat ->
     length (onChangeCalls (run [PointerDown delta; Wait ms] st))
     = (length (onChangeCalls st)
        + (if (ms <? 400)%nat then 1 else 1 + (ms - 400) / 80))%nat)
  /\ length (onChangeCalls (run [PointerDown delta; Wait 1000; PointerUp] st))
     = (length (onChangeCalls st) + 8)%nat
  /\ timers (stopAdjusting st) = []
  /\ (forall ms : nat,
        onChangeCalls (run [PointerUp; Wait ms] st) = onChangeCalls st
        /\ onChangeCalls (run [PointerLeave; Wait ms] st) = onChangeCalls st).
Proof.
  intros st.
  assert (Hwf : wellFormed st) by apply wellFormed_run, wellFormed_mount.
  repeat split.
  - intros ms Hms. cbn [run fold_left step]. apply hold_any; assumption.
  - cbn [run fold_left step]. rewrite onChangeCalls_stopAdjusting.
    rewrite hold_any by (assumption || lia). reflexivity.
  - rewrite stopAdjusting_idle by assumption. reflexivity.
  - cbn [run fold_left step]. rewrite elapse_no_timers.
    + apply onChangeCalls_stopAdjusting.
    + rewrite stopAdjusting_idle by assumption. reflexivity.
  - cbn [run fold_left step]. rewrite elapse_no_timers.
    + apply onChangeCalls_stopAdjusting.
    + rewrite stopAdjusting_idle by assumption. reflexivity.
Qed.

Lemma press_and_hold_reports_witness :
  length (onChangeCalls
            (run [PointerDown (dec 1 3); Wait 1000]
                 (run [] (mount (dec 1699 3) "1,699"))))
  = (0 + 8)%nat.
Proof.
  exact (proj1 (press_and_hold_reports [] (dec 1699 3) (dec 1 3) "1,699")
           1000%nat (le_n 1000)).
Defined.



End PressAndHold.

(** ** More on the stepped numeric input *)

Section Schedule.

Lemma elapse_add (a b : nat) : forall st,
  elapse (a + b) st = elapse b (elapse a st).
Proof.
  induction a as [| a IH]; intros st; [reflexivity |].
  cbn [Nat.add elapse]. apply IH.
Qed.

(** One millisecond with a single timer pending. *)
Lemma tick_waiting (st : state) (id r : Z) (a : callback) :
  timers st = [mkTimer id r a] -> (1 < r)%Z ->
  timers (tick st) = [mkTimer id (r - 1) a]
  /\ onChangeCalls (tick st) = onChangeCalls st.
Proof.
  intros Ht Hr. unfold tick. rewrite Ht. cbn [map length fireDue].
  cbn [setTimers timers takeDue remaining timerId action].
  assert (E : (r - 1 <=? 0)%Z = false) by (apply Z.leb_gt; lia).
  rewrite E. split; reflexivity.
Qed.

(** A repeat: [run] reports and sets the next timer. *)
Lemma fire_run (d : number) (speed count : Z) (st : state) :
  let speed' := if (count + 1 =? 30)%Z then 15%Z
                else if (count + 1 =? 10)%Z then 40%Z else speed in
  timers (fire (Run d speed count) st)
  = (timers st ++ [mkTimer (nextTimerId st) speed' (Run d speed' (count + 1))])%list
  /\ length (onChangeCalls (fire (Run d speed count) st))
     = S (length (onChangeCalls st)).
Proof.
  intros speed'. unfold fire.
  destruct (onChange_fields
              (Stepped (valueRef st) d
                 (Math_max (of_Z 0) (toFixedNum 3 (add (valueRef st) d)))) st)
    as (_ & _ & H3 & H4 & H5 & _).
  change (onChange _ st) with (performUpdate d st) in H3, H4, H5.
  destruct (performUpdate d st) as [v text vr tr ir ts n log].
  cbn in *. subst ts n log. split; [reflexivity |].
  rewrite length_app. cbn. lia.
Qed.

Lemma tick_firing (st : state) (id : Z) (d : number) (c : Z) :
  timers st = [mkTimer id 1 (Run d 15 c)] -> (30 <= c)%Z ->
  timers (tick st) = [mkTimer (nextTimerId st) 15 (Run d 15 (c + 1))]
  /\ length (onChangeCalls (tick st)) = S (length (onChangeCalls st)).
Proof.
  intros Ht Hc. unfold tick. rewrite Ht. cbn [map length fireDue].
  cbn [setTimers timers takeDue remaining timerId action].
  change (1 - 1 <=? 0)%Z with true. cbv beta iota.
  destruct (fire_run d 15 c
              (mkState (value st) (inputValue st) (valueRef st) (timerRef st)
                 (initialDelayRef st) [] (nextTimerId st) (onChangeCalls st)))
    as [H1 H2].
  assert (E1 : (c + 1 =? 10)%Z = false) by (apply Z.eqb_neq; lia).
  assert (E2 : (c + 1 =? 30)%Z = false) by (apply Z.eqb_neq; lia).
  rewrite E1, E2 in H1. split; [exact H1 | exact H2].
Qed.

(** At full speed: a repeat every 15 ms, for as long as the press
    lasts. *)
Lemma elapse_full_speed (d : number) (ms : nat) :
  forall (st : state) (id r c : Z),
    timers st = [mkTimer id r (Run d 15 c)] ->
    (30 <= c)%Z -> (1 <= r <= 15)%Z ->
    Z.of_nat (length (onChangeCalls (elapse ms st)))
    = (Z.of_nat (length (onChangeCalls st)) + (Z.of_nat ms + (15 - r)) / 15)%Z.
Proof.
  induction ms as [| ms IH]; intros st id r c Ht Hc Hr.
  - cbn [elapse]. rewrite Z.div_small by lia. lia.
  - cbn [elapse]. destruct (Z.eq_dec r 1%Z) as [-> | Hr1].
    + destruct (tick_firing st id d c Ht Hc) as [Ht' Hlen].
      rewrite (IH (tick st) _ 15%Z (c + 1)%Z Ht') by lia.
      rewrite Hlen.
      replace (Z.of_nat (S ms) + (15 - 1))%Z with (Z.of_nat ms + 1 * 15)%Z by lia.
      rewrite Z.div_add by lia.
      replace (Z.of_nat ms + (15 - 15))%Z with (Z.of_nat ms) by lia. lia.
    + destruct (tick_waiting st id r _ Ht ltac:(lia)) as [Ht' Hlog].
      rewrite (IH (tick st) id (r - 1)%Z c Ht') by lia.
      rewrite Hlog. f_equal. f_equal. lia.
Qed.

(** The first two seconds of a press, by running them. *)
Lemma hold_2000 (v vr delta : number) (text : string) (n : Z) (ms : nat) :
  (ms <= 2000)%nat ->
  length (onChangeCalls (elapse ms (startAdjusting delta (fresh v vr text n))))
  = (1 + expectedRepeats ms)%nat.
Proof.
  intros Hms. rewrite (schedule_reports _ _ (schedule_hold v vr delta text n ms)).
  assert (H : forallb (fun ms =>
            Nat.eqb (length (onChangeCalls
                       (elapse ms (startAdjusting (of_Z 0)
                                     (fresh (of_Z 0) (of_Z 0) EmptyString n)))))
                    (1 + expectedRepeats ms)) (seq 0 2001) = true).
  { vm_compute. reflexivity. }
  rewrite forallb_forall in H. apply Nat.eqb_eq, H, in_seq. lia.
Qed.

Lemma state_at_2000 (v vr delta : number) (text : string) (n : Z) :
  exists id d,
    timers (elapse 2000 (startAdjusting delta (fresh v vr text n)))
    = [mkTimer id 15 (Run d 15 30)].
Proof.
  pose proof (schedule_timers _ _ (schedule_hold v vr delta text n 2000)) as H.
  assert (E : exists id,
             map timerKind
               (timers (elapse 2000 (startAdjusting (of_Z 0)
                                       (fresh (of_Z 0) (of_Z 0) EmptyString n))))
             = [(id, 15%Z, Some (15%Z, 30%Z))]).
  { eexists. vm_compute. reflexivity. }
  destruct E as (id & E). rewrite E in H. clear E.
  destruct (timers (elapse 2000 (startAdjusting delta (fresh v vr text n))))
    as [| [i r [d | d sp c]] [| u ts]]; try discriminate H.
  exists id, d. cbn [map] in H. unfold timerKind in H.
  cbn [timerId remaining action callbackKind] in H.
  injection H; intros; subst; reflexivity.
Qed.

Lemma expectedRepeats_late (ms : nat) :
  (2000 <= ms)%nat -> expectedRepeats ms = (30 + (ms - 2000) / 15)%nat.
Proof.
  intros H. unfold expectedRepeats.
  assert (E1 : (ms <? 1200)%nat = false) by (apply Nat.ltb_ge; lia).
  assert (E2 : (ms <? 2000)%nat = false) by (apply Nat.ltb_ge; lia).
  rewrite E1, E2. reflexivity.
Qed.

Lemma hold_fresh_any (v vr delta : number) (text : string) (n : Z) (ms : nat) :
  length (onChangeCalls (elapse ms (startAdjusting delta (fresh v vr text n))))
  = (1 + expectedRepeats ms)%nat.
Proof.
  destruct (Nat.le_gt_cases ms 2000) as [Hle | Hgt]; [apply hold_2000, Hle |].
  rewrite expectedRepeats_late by lia.
  set (k := (ms - 2000)%nat).
  replace ms with (2000 + k)%nat by (unfold k; lia).
  rewrite elapse_add.
  destruct (state_at_2000 v vr delta text n) as (id & d & Ht).
  apply Nat2Z.inj.
  rewrite (elapse_full_speed d k _ id 15 30 Ht) by lia.
  rewrite (hold_2000 v vr delta text n 2000) by lia.
  change (expectedRepeats 2000) with 30%nat.
  rewrite Z.sub_diag, Z.add_0_r.
  rewrite !Nat2Z.inj_add, Nat2Z.inj_div. change (Z.of_nat 15) with 15%Z. lia.
Qed.

End Schedule.

Section ControllerMore.

(** X15.  The whole schedule of a press.  After any history, a press held for
    [ms] milliseconds has reported once at once and then once for every
    timed repeat: every 80 ms from 480 ms on for the first ten, every
    40 ms for the next twenty, and every 15 ms from then on, for as long
    as the press lasts. *)
Theorem press_schedule (es : list event) (v delta : number) (text : string)
    (ms : nat) :
  let st := run es (mount v text) in
  length (onChangeCalls (run [PointerDown delta; Wait ms] st))
  = (length (onChangeCalls st) + 1 + expectedRepeats ms)%nat.
Proof.
  intros st.
  assert (Hwf : wellFormed st) by apply wellFormed_run, wellFormed_mount.
  cbn [run fold_left step].
  assert (E : startAdjusting delta st = startAdjusting delta (idle st)).
  { unfold startAdjusting. rewrite (stopAdjusting_idle st Hwf). reflexivity. }
  rewrite E.
  assert (Eidle : idle st = prependLog (onChangeCalls st)
                    (idle (fresh (value st) (valueRef st) (inputValue st)
                                 (nextTimerId st)))).
  { unfold idle, prependLog, fresh. cbn. rewrite app_nil_r. reflexivity. }
  rewrite Eidle, startAdjusting_idle_prependLog, elapse_prependLog.
  cbn [prependLog onChangeCalls]. rewrite length_app.
  change (idle (fresh ?a ?b ?c ?d)) with (fresh a b c d).
  rewrite hold_fresh_any. lia.
Qed.

(** X16.  After any history at most one timer is pending, it is still to
    fire, and the value the timers read is the value the owner holds:
    a second press never starts a second chain of repeats. *)
Theorem single_timer (es : list event) (v : number) (text : string) :
  let st := run es (mount v text) in
  (length (timers st) <= 1)%nat
  /\ Forall (fun t => (0 < remaining t)%Z) (timers st)
  /\ valueRef st = value st.
Proof.
  intros st.
  assert (Hwf : wellFormed st) by apply wellFormed_run, wellFormed_mount.
  destruct Hwf as (_ & Hv & Ht).
  destruct (timers st) as [| t [| u ts]]; [| | contradiction].
  - repeat split; [cbn; lia | constructor | exact Hv].
  - repeat split; [cbn; lia | | exact Hv].
    constructor; [apply Ht | constructor].
Qed.

End ControllerMore.

Section UpAndDown.

Lemma value_stopAdjusting (st : state) :
  value (stopAdjusting st) = value st
  /\ valueRef (stopAdjusting st) = valueRef st.
Proof.
  destruct st as [v text vr tr ir ts n log].
  unfold stopAdjusting, clearIfSet, clearTimeout.
  destruct tr as [a |], ir as [b |]; cbn;
    repeat (match goal with |- context [if ?c then _ else _] => destruct c end; cbn);
    split; reflexivity.
Qed.

Lemma value_startAdjusting (delta : number) (st : state) :
  value (startAdjusting delta st)
  = Math_max (of_Z 0) (toFixedNum 3 (add (valueRef st) delta)).
Proof.
  assert (H : value (performUpdate delta (stopAdjusting st))
              = Math_max (of_Z 0)
                  (toFixedNum 3 (add (valueRef (stopAdjusting st)) delta)))
    by apply onChange_fields.
  rewrite (proj2 (value_stopAdjusting st)) in H.
  unfold startAdjusting.
  destruct (performUpdate delta (stopAdjusting st)). exact H.
Qed.

(** A click up and a click down, on the number alone. *)
Lemma value_up_down (delta : number) (st : state) :
  wellFormed st ->
  value (run [PointerDown delta; PointerUp; PointerDown (neg delta); PointerUp] st)
  = Math_max (of_Z 0)
      (toFixedNum 3
         (add (Math_max (of_Z 0) (toFixedNum 3 (add (value st) delta)))
              (neg delta))).
Proof.
  intros Hwf. cbn [run fold_left step].
  rewrite (proj1 (value_stopAdjusting _)), value_startAdjusting.
  rewrite (proj2 (value_stopAdjusting _)).
  assert (H1 : wellFormed (startAdjusting delta st))
    by apply wellFormed_startAdjusting, Hwf.
  destruct H1 as (_ & -> & _). rewrite value_startAdjusting.
  destruct Hwf as (_ & -> & _). reflexivity.
Qed.

(** The values checked one by one: the prices up to [10] in steps of
    [0.001], the litres up to [1000] in steps of [1], and the
    consumptions up to [500] in steps of [0.5]. *)
Lemma up_down_checked :
  forallb (fun k =>
             Object_is
               (Math_max (of_Z 0)
                  (toFixedNum 3
                     (add (Math_max (of_Z 0) (toFixedNum 3 (add (dec k 3) (dec 1 3))))
                          (neg (dec 1 3)))))
               (dec k 3))
          (map Z.of_nat (seq 0 (Z.to_nat 10001))) = true
  /\ forallb (fun k =>
                Object_is
                  (Math_max (of_Z 0)
                     (toFixedNum 3
                        (add (Math_max (of_Z 0) (toFixedNum 3 (add (of_Z k) (of_Z 1))))
                             (neg (of_Z 1)))))
                  (of_Z k))
             (map Z.of_nat (seq 0 (Z.to_nat 1001))) = true
  /\ forallb (fun k =>
                Object_is
                  (Math_max (of_Z 0)
                     (toFixedNum 3
                        (add (Math_max (of_Z 0)
                                (toFixedNum 3 (add (dec (5 * k) 1) (dec 5 1))))
                             (neg (dec 5 1)))))
                  (dec (5 * k) 1))
             (map Z.of_nat (seq 0 (Z.to_nat 1001))) = true.
Proof. vm_compute. repeat split. Qed.

Lemma in_range (k n : Z) :
  (0 <= k < n)%Z -> In k (map Z.of_nat (seq 0 (Z.to_nat n))).
Proof.
  intros H. apply in_map_iff. exists (Z.to_nat k). split; [lia |].
  apply in_seq. lia.
Qed.

(** X17.  A click on the plus button followed by a click on the minus
    button gives back the value, for the three steps the application
    uses and the values on their grids up to a bound: a price [k / 1000]
    up to [10] with the step [0.001], a number of litres [k] up to
    [1000] with the step [1], a consumption [k / 2] up to [500] with the
    step [0.5]. *)
Theorem step_up_down (es : list event) (v : number) (text : string)
    (delta : number) (k : Z) :
  let st := run es (mount v text) in
  (delta = dec 1 3 /\ (0 <= k <= 10000)%Z /\ value st = dec k 3)
  \/ (delta = of_Z 1 /\ (0 <= k <= 1000)%Z /\ value st = of_Z k)
  \/ (delta = dec 5 1 /\ (0 <= k <= 1000)%Z /\ value st = dec (5 * k) 1) ->
  value (run [PointerDown delta; PointerUp; PointerDown (neg delta); PointerUp] st)
  = value st.
Proof.
  intros st H.
  assert (Hwf : wellFormed st) by apply wellFormed_run, wellFormed_mount.
  rewrite (value_up_down delta st Hwf).
  destruct up_down_checked as (C1 & C2 & C3).
  rewrite forallb_forall in C1, C2, C3.
  destruct H as [(-> & Hk & ->) | [(-> & Hk & ->) | (-> & Hk & ->)]];
    apply Object_is_eq;
    [apply C1 | apply C2 | apply C3]; apply in_range; lia.
Qed.

Lemma step_up_down_witness :
  value (run [PointerDown (dec 1 3); PointerUp;
              PointerDown (neg (dec 1 3)); PointerUp]
             (run [] (mount (dec 1699 3) "1,699")))
  = dec 1699 3.
Proof.
  apply (step_up_down [] (dec 1699 3) "1,699" (dec 1 3) 1699).
  left. split; [reflexivity | split; [lia | reflexivity]].
Defined.

(** Outside the grid the round trip can fail: from [2^53] a step of [1]
    up is lost in the sum, and the step down is not. *)
Example step_up_down_large :
  value (run [PointerDown (of_Z 1); PointerUp;
              PointerDown (neg (of_Z 1)); PointerUp]
             (mount (of_Z (2 ^ 53)) "9007199254740992"))
  = of_Z (2 ^ 53 - 1).
Proof. vm_compute. reflexivity. Qed.

End UpAndDown.

Section AcceptedTexts.

Local Open Scope string_scope.
Local Open Scope char_scope.

Lemma dead_nullable (r : regex) : dead r = true -> nullable r = false.
Proof.
  induction r as [| | p | r1 IH1 r2 IH2 | r1 IH1 r2 IH2 | r IH]; cbn;
    try discriminate; try reflexivity.
  - intros [H | H]%orb_true_iff.
    + rewrite (IH1 H). reflexivity.
    + rewrite (IH2 H). apply andb_false_r.
  - intros [H1 H2]%andb_true_iff. rewrite (IH1 H1), (IH2 H2). reflexivity.
Qed.

Lemma dead_deriv (c : ascii) (r : regex) : dead r = true -> dead (deriv c r) = true.
Proof.
  induction r as [| | p | r1 IH1 r2 IH2 | r1 IH1 r2 IH2 | r IH]; cbn;
    try discriminate; try reflexivity.
  - intros [H | H]%orb_true_iff.
    + rewrite (dead_nullable r1 H). cbn. rewrite (IH1 H). reflexivity.
    + destruct (nullable r1); cbn; rewrite H, ?(IH2 H), ?orb_true_r; reflexivity.
  - intros [H1 H2]%andb_true_iff. rewrite (IH1 H1), (IH2 H2). reflexivity.
Qed.

Lemma test_dead (s : string) : forall r, dead r = true -> test r s = false.
Proof.
  induction s as [| c s IH]; intros r H; cbn [test].
  - apply dead_nullable, H.
  - apply IH, dead_deriv, H.
Qed.

(** A character is a digit, the minus sign, one of the two separators,
    or none of these. *)
Lemma char_cases (c : ascii) :
  (isDigit c = true /\ isChar "," c = false)
  \/ c = "-" \/ c = "." \/ c = ","
  \/ (isDigit c = false /\ isChar "-" c = false
      /\ isChar "." c = false /\ isChar "," c = false).
Proof.
  destruct c as [[] [] [] [] [] [] [] []];
    first [ left; split; reflexivity
          | right; left; reflexivity
          | right; right; left; reflexivity
          | right; right; right; left; reflexivity
          | right; right; right; right; repeat split; reflexivity ].
Qed.

(** Where the pattern stops matching. *)
Lemma dead_start (c : ascii) :
  isDigit c = false -> isChar "-" c = false ->
  isChar "." c = false -> isChar "," c = false ->
  dead (deriv c numericPattern) = true.
Proof.
  destruct c as [[] [] [] [] [] [] [] []]; vm_compute; congruence.
Qed.

Lemma dead_after_sign (c : ascii) :
  isDigit c = false -> isChar "." c = false -> isChar "," c = false ->
  dead (deriv c (deriv "-" numericPattern)) = true.
Proof.
  destruct c as [[] [] [] [] [] [] [] []]; vm_compute; congruence.
Qed.

Lemma dead_after_separator (c : ascii) :
  isDigit c = false ->
  dead (deriv c (deriv "." numericPattern)) = true
  /\ dead (deriv c (deriv "," numericPattern)) = true
  /\ dead (deriv c (deriv "." (deriv "-" numericPattern))) = true
  /\ dead (deriv c (deriv "," (deriv "-" numericPattern))) = true.
Proof.
  destruct c as [[] [] [] [] [] [] [] []]; vm_compute; intros H;
    first [ discriminate H | repeat split ].
Qed.

Lemma replaceFirst_head (c : ascii) (s : string) :
  isChar "," c = false ->
  replaceFirst "," "." (String c s) = String c (replaceFirst "," "." s).
Proof.
  intros H. cbn [replaceFirst]. rewrite Ascii.eqb_sym.
  change (Ascii.eqb "," c) with (isChar "," c). rewrite H. reflexivity.
Qed.

(** [parseFloat] reads a number as soon as there is a digit, in front of
    the dot or behind it. *)
Lemma isNaN_zero (negative : bool) : isNaN (zero negative) = false.
Proof. destruct negative; reflexivity. Qed.

Lemma parseDecimal_digit (negative : bool) (d : ascii) (r : string) :
  isDigit d = true -> isNaN (parseDecimal negative (String d r)) = false.
Proof.
  intros H. unfold parseDecimal. cbn [takeDigits]. rewrite H.
  destruct (takeDigits r) as [ds rest].
  destruct (match rest with
            | String "." r' => takeDigits r'
            | _ => ([], rest)
            end) as [fracDigits afterFrac].
  cbv beta iota zeta.
  match goal with |- context [if ?b then _ else _] => destruct b end;
    [apply isNaN_zero | apply of_Q_sign].
Qed.

Lemma parseDecimal_dot_digit (negative : bool) (d : ascii) (r : string) :
  isDigit d = true ->
  isNaN (parseDecimal negative (String "." (String d r))) = false.
Proof.
  intros H. unfold parseDecimal.
  change (takeDigits (String "." (String d r)))
    with (@nil Z, String "." (String d r)).
  cbv beta iota zeta. cbn [takeDigits]. rewrite H.
  destruct (takeDigits r) as [ds rest]. cbv beta iota zeta.
  match goal with |- context [if ?b then _ else _] => destruct b end;
    [apply isNaN_zero | apply of_Q_sign].
Qed.

Lemma isDigit_priceChar (d : ascii) : isDigit d = true -> isPriceChar d = true.
Proof. intros H. unfold isPriceChar. rewrite H. reflexivity. Qed.

Lemma parseFloat_head (c : ascii) (r : string) :
  isPriceChar c = true -> parseFloat (String c r) = parseDecimal false (String c r).
Proof.
  intros H. rewrite parseFloat_unfold. cbn [trimStart].
  rewrite (isPriceChar_not_white c H). cbv zeta.
  destruct (priceChar_head c r H) as [-> ->]. reflexivity.
Qed.

Lemma parseFloat_minus (c : ascii) (r : string) :
  isPriceChar c = true ->
  parseFloat (String "-" (String c r)) = parseDecimal true (String c r).
Proof.
  intros H. rewrite parseFloat_unfold.
  change (trimStart (String "-" (String c r))) with (String "-" (String c r)).
  cbv beta iota zeta.
  rewrite (proj2 (priceChar_head c r H)). reflexivity.
Qed.

(** The accepted texts in which [parseFloat] finds no number. *)
Lemma accepted_not_parsed (s : string) :
  test numericPattern s = true ->
  isNaN (parseFloat (replaceFirst "," "." s)) = true ->
  let normalized := replaceFirst "," "." s in
  (normalized = "" \/ normalized = "-" \/ normalized = "." \/ normalized = "-.")%string.
Proof.
  intros Ht Hn normalized. subst normalized.
  destruct s as [| c s]; [left; reflexivity |].
  destruct (char_cases c) as [[Hd Hc] | [-> | [-> | [-> | (Hd & Hm & Hp & Hc)]]]].
  - rewrite (replaceFirst_head c s Hc), parseFloat_head in Hn
      by apply isDigit_priceChar, Hd.
    rewrite parseDecimal_digit in Hn by exact Hd. discriminate Hn.
  - change (replaceFirst "," "." (String "-" s))
      with (String "-" (replaceFirst "," "." s)) in *.
    destruct s as [| c s]; [right; left; reflexivity |].
    change (test numericPattern (String "-" (String c s)))
      with (test (deriv c (deriv "-" numericPattern)) s) in Ht.
    destruct (char_cases c) as [[Hd Hc] | [-> | [-> | [-> | (Hd & Hm & Hp & Hc)]]]].
    + rewrite (replaceFirst_head c s Hc), parseFloat_minus in Hn
        by apply isDigit_priceChar, Hd.
      rewrite parseDecimal_digit in Hn by exact Hd. discriminate Hn.
    + rewrite test_dead in Ht by reflexivity. discriminate Ht.
    + change (replaceFirst "," "." (String "." s))
        with (String "." (replaceFirst "," "." s)) in *.
      destruct s as [| c s]; [right; right; right; reflexivity |].
      change (test (deriv "." (deriv "-" numericPattern)) (String c s))
        with (test (deriv c (deriv "." (deriv "-" numericPattern))) s) in Ht.
      destruct (isDigit c) eqn:Hd.
      * destruct (char_cases c) as [[_ Hc] | [-> | [-> | [-> | (Hd' & _)]]]];
          try discriminate Hd; [| congruence].
        rewrite (replaceFirst_head c s Hc), parseFloat_minus in Hn by reflexivity.
        rewrite parseDecimal_dot_digit in Hn by exact Hd. discriminate Hn.
      * rewrite test_dead in Ht by apply (dead_after_separator c Hd).
        discriminate Ht.
    + change (replaceFirst "," "." (String "," s)) with (String "." s) in *.
      destruct s as [| c s]; [right; right; right; reflexivity |].
      change (test (deriv "," (deriv "-" numericPattern)) (String c s))
        with (test (deriv c (deriv "," (deriv "-" numericPattern))) s) in Ht.
      destruct (isDigit c) eqn:Hd.
      * rewrite parseFloat_minus in Hn by reflexivity.
        rewrite parseDecimal_dot_digit in Hn by exact Hd. discriminate Hn.
      * rewrite test_dead in Ht by apply (dead_after_separator c Hd).
        discriminate Ht.
    + rewrite test_dead in Ht by (apply dead_after_sign; assumption).
      discriminate Ht.
  - change (replaceFirst "," "." (String "." s))
      with (String "." (replaceFirst "," "." s)) in *.
    destruct s as [| c s]; [right; right; left; reflexivity |].
    change (test numericPattern (String "." (String c s)))
      with (test (deriv c (deriv "." numericPattern)) s) in Ht.
    destruct (isDigit c) eqn:Hd.
    + destruct (char_cases c) as [[_ Hc] | [-> | [-> | [-> | (Hd' & _)]]]];
        try discriminate Hd; [| congruence].
      rewrite (replaceFirst_head c s Hc), parseFloat_head in Hn by reflexivity.
      rewrite parseDecimal_dot_digit in Hn by exact Hd. discriminate Hn.
    + rewrite test_dead in Ht by apply (dead_after_separator c Hd).
      discriminate Ht.
  - change (replaceFirst "," "." (String "," s)) with (String "." s) in *.
    destruct s as [| c s]; [right; right; left; reflexivity |].
    change (test numericPattern (String "," (String c s)))
      with (test (deriv c (deriv "," numericPattern)) s) in Ht.
    destruct (isDigit c) eqn:Hd.
    + rewrite parseFloat_head in Hn by reflexivity.
      rewrite parseDecimal_dot_digit in Hn by exact Hd. discriminate Hn.
    + rewrite test_dead in Ht by apply (dead_after_separator c Hd).
      discriminate Ht.
  - change (test numericPattern (String c s))
      with (test (deriv c numericPattern) s) in Ht.
    rewrite test_dead in Ht by (apply dead_start; assumption).
    discriminate Ht.
Qed.

Lemma eqn_refl (x : number) : isNaN x = false -> eqn x x = true.
Proof.
  destruct x as [[] | [] | | [] m e]; try discriminate; try reflexivity;
    intros _; unfold eqn, cmp; cbn [SFcompare];
    rewrite Z.compare_refl, Pos.compare_cont_refl; reflexivity.
Qed.

(** The text after an accepted keystroke and the report that follows
    it. *)
Lemma inputValue_onChange (r : report) (original : string) (st : state) :
  inputValue (onChange r (setInputValue original st))
  = if Object_is (reported r) (value st) then original
    else if negb (eqn (parseFloat (replaceFirst "," "." original)) (reported r))
         then formattedValue (reported r)
         else original.
Proof.
  unfold onChange, newValue. cbn [value inputValue setInputValue].
  destruct (Object_is (reported r) (value st)); reflexivity.
Qed.

(** X18.  An accepted keystroke.  When the text holds a number, that
    number is reported and becomes the value, and the text is shown as
    typed.  The texts without a number are the empty text, a lone minus
    sign and a lone separator, for which zero is reported and becomes
    the value, and the text is shown as typed only if the value was zero
    already: otherwise the effect on [value] replaces it by [0]; and a
    minus sign followed by a separator, for which nothing is reported,
    the value stays, and the text is shown as typed. *)
Theorem handleInputChange_accepts (original : string) (st : state) :
  test numericPattern original = true ->
  let normalized := replaceFirst "," "." original in
  let parsed := parseFloat normalized in
  let st' := handleInputChange original st in
  (isNaN parsed = false
   /\ onChangeCalls st' = (onChangeCalls st ++ [Typed parsed])%list
   /\ value st' = parsed
   /\ inputValue st' = original)
  \/ ((normalized = "" \/ normalized = "-" \/ normalized = ".")%string
      /\ onChangeCalls st' = (onChangeCalls st ++ [Typed (of_Z 0)])%list
      /\ value st' = of_Z 0
      /\ inputValue st'
         = if Object_is (of_Z 0) (value st) then original else "0"%string)
  \/ (normalized = "-."%string
      /\ onChangeCalls st' = onChangeCalls st
      /\ value st' = value st
      /\ inputValue st' = original).
Proof.
  intros Ht normalized parsed st'.
  subst st'. unfold handleInputChange. rewrite Ht. cbv zeta.
  fold normalized. fold parsed.
  destruct (isNaN parsed) eqn:Hn; cbn [negb].
  - assert (Hzero : forall st0 : state,
              st0 = onChange (Typed (of_Z 0)) (setInputValue original st) ->
              onChangeCalls st0 = (onChangeCalls st ++ [Typed (of_Z 0)])%list
              /\ value st0 = of_Z 0
              /\ inputValue st0
                 = if Object_is (of_Z 0) (value st) then original
                   else "0"%string).
    { intros st0 ->.
      destruct (onChange_fields (Typed (of_Z 0)) (setInputValue original st))
        as (_ & _ & _ & _ & H5 & H6).
      split; [exact H5 | split; [exact H6 |]].
      rewrite inputValue_onChange. cbn [reported].
      fold normalized. fold parsed.
      destruct parsed; try discriminate Hn. reflexivity. }
    destruct (accepted_not_parsed original Ht Hn) as [E | [E | [E | E]]];
      fold normalized in E; rewrite E; cbn [String.eqb Ascii.eqb Bool.eqb orb];
      solve [ right; left; split; [auto | apply Hzero; reflexivity]
            | right; right; repeat split; reflexivity ].
  - left. split; [reflexivity |].
    destruct (onChange_fields (Typed parsed) (setInputValue original st))
      as (_ & _ & _ & _ & H5 & H6).
    split; [exact H5 | split; [exact H6 |]].
    rewrite inputValue_onChange. cbn [reported].
    fold normalized. fold parsed. rewrite (eqn_refl parsed Hn). cbn [negb].
    destruct (Object_is parsed (value st)); reflexivity.
Qed.

Lemma handleInputChange_accepts_witness :
  let st' := handleInputChange "" (mount (of_Z 5) "5") in
  onChangeCalls st' = [Typed (of_Z 0)]
  /\ value st' = of_Z 0
  /\ inputValue st' = "0"%string.
Proof.
  destruct (handleInputChange_accepts "" (mount (of_Z 5) "5") eq_refl)
    as [(Hn & _) | [(_ & H) | (E & _)]].
  - discriminate Hn.
  - exact H.
  - discriminate E.
Defined.

(** A text of 310 digits is accepted, and what is reported is
    [Infinity]. *)
Example handleInputChange_overflow :
  let original := string_of_list_ascii (repeat "9"%char 310) in
  test numericPattern original = true
  /\ value (handleInputChange original (mount (of_Z 5) "5")) = Inf false.
Proof. vm_compute. split; reflexivity. Qed.

End AcceptedTexts.

(** ** The requests *)

Section Strings.

Local Open Scope string_scope.
Local Arguments String.append !_ _ / : simpl nomatch.

Lemma append_nil_r (s : string) : s ++ "" = s.
Proof. induction s as [| c s IH]; cbn; [reflexivity | f_equal; exact IH]. Qed.

Lemma append_assoc (a b c : string) : (a ++ b) ++ c = a ++ (b ++ c).
Proof. induction a as [| x a IH]; cbn; [reflexivity | f_equal; exact IH]. Qed.

Lemma length_append (a b : string) :
  String.length (a ++ b) = (String.length a + String.length b)%nat.
Proof. induction a as [| x a IH]; cbn; [reflexivity | f_equal; exact IH]. Qed.

(** Two prefixes of a text: the shorter is a prefix of the longer. *)
Lemma append_eq_split (a b c d : string) :
  a ++ b = c ++ d -> (String.length a <= String.length c)%nat ->
  exists e, c = a ++ e /\ b = e ++ d.
Proof.
  revert c. induction a as [| x a IH]; intros c H Hlen.
  - exists c. split; [reflexivity | exact H].
  - destruct c as [| y c]; [cbn in Hlen; lia |].
    cbn in H. injection H as -> H. cbn in Hlen.
    destruct (IH c H ltac:(lia)) as (e & -> & ->).
    exists e. split; reflexivity.
Qed.

(** The last character of a text that is not empty. *)
Lemma append_last (a e : string) (x : ascii) (m : string) :
  m ++ String x "" = a ++ e -> e <> "" ->
  exists e', e = e' ++ String x "".
Proof.
  revert a. induction m as [| y m IH]; intros a H He.
  - destruct a as [| z a].
    + cbn in H. exists "". cbn. congruence.
    + cbn in H. injection H as _ H.
      destruct a; cbn in H; [| discriminate]. congruence.
  - destruct a as [| z a].
    + cbn in H. exists (String y m). cbn. congruence.
    + cbn in H. injection H as _ H. apply (IH a H He).
Qed.

Lemma allChars_append (p : ascii -> bool) (a b : string) :
  allChars p (a ++ b) = allChars p a && allChars p b.
Proof.
  induction a as [| x a IH]; cbn; [reflexivity |].
  rewrite IH, andb_assoc. reflexivity.
Qed.

(** A character that occurs in a text splits it. *)
Lemma noChar_false (c : ascii) (s : string) :
  noChar c s = false -> exists a b, s = a ++ String c b.
Proof.
  unfold noChar. induction s as [| x s IH]; cbn; [discriminate |].
  destruct (isChar c x) eqn:E; cbn.
  - intros _. apply Ascii.eqb_eq in E. subst x. exists "", s. reflexivity.
  - intros H. destruct (IH H) as (a & b & ->). exists (String x a), b. reflexivity.
Qed.

End Strings.

Section RegexMeaning.

Local Open Scope string_scope.
Local Arguments String.append !_ _ / : simpl nomatch.

Lemma test_Void (s : string) : test Void s = false.
Proof. apply test_dead. reflexivity. Qed.

Lemma test_Eps (s : string) : test Eps s = true <-> s = "".
Proof.
  destruct s as [| c s]; cbn; [tauto |].
  rewrite test_Void. split; discriminate.
Qed.

Lemma test_Class (p : ascii -> bool) (s : string) :
  test (Class p) s = true <-> exists c, s = String c "" /\ p c = true.
Proof.
  destruct s as [| c s]; cbn.
  - split; [discriminate | intros (c & H & _); discriminate].
  - destruct (p c) eqn:E.
    + rewrite test_Eps. split.
      * intros ->. exists c. split; [reflexivity | exact E].
      * intros (c' & H & _). congruence.
    + rewrite test_Void. split; [discriminate |].
      intros (c' & H & Hp). congruence.
Qed.

Lemma test_Alt (s : string) :
  forall r1 r2, test (Alt r1 r2) s = test r1 s || test r2 s.
Proof. induction s as [| c s IH]; intros r1 r2; cbn; [reflexivity | apply IH]. Qed.

Lemma test_Seq (s : string) :
  forall r1 r2,
    test (Seq r1 r2) s = true
    <-> exists s1 s2, s = s1 ++ s2 /\ test r1 s1 = true /\ test r2 s2 = true.
Proof.
  induction s as [| c s IH]; intros r1 r2.
  - cbn. rewrite andb_true_iff. split.
    + intros [H1 H2]. exists "", "". repeat split; assumption.
    + intros (s1 & s2 & H & H1 & H2).
      destruct s1; [| discriminate]. destruct s2; [| discriminate].
      split; assumption.
  - cbn [test deriv]. split.
    + intros H.
      assert (Hcases : test (Seq (deriv c r1) r2) s = true
                       \/ (nullable r1 = true /\ test (deriv c r2) s = true)).
      { destruct (nullable r1); [| left; exact H].
        rewrite test_Alt in H. apply orb_true_iff in H.
        destruct H as [H | H]; [left; exact H | right; split; [reflexivity | exact H]]. }
      destruct Hcases as [H' | [Hn H']].
      * apply IH in H'. destruct H' as (s1 & s2 & -> & H1 & H2).
        exists (String c s1), s2. repeat split; assumption.
      * exists "", (String c s). repeat split; assumption.
    + intros (s1 & s2 & Hs & H1 & H2).
      destruct s1 as [| x s1].
      * cbn in Hs. subst s2. cbn in H1. rewrite H1, test_Alt.
        cbn in H2. rewrite H2. apply orb_true_r.
      * cbn in Hs. injection Hs as <- ->. cbn in H1.
        assert (H : test (Seq (deriv c r1) r2) (s1 ++ s2) = true)
          by (apply IH; exists s1, s2; repeat split; assumption).
        destruct (nullable r1); [| exact H].
        rewrite test_Alt, H. reflexivity.
Qed.

Lemma test_Star_any (s : string) : test (Star (Class anyChar)) s = true.
Proof.
  induction s as [| c s IH]; [reflexivity |].
  cbn [test deriv anyChar]. apply test_Seq. exists "", s.
  repeat split. exact IH.
Qed.

(** What the pattern matches as a whole: an opening brace, any text, a
    closing brace. *)
Lemma test_jsonPattern (m : string) :
  test jsonPattern m = true
  <-> exists body, m = String "{" (body ++ String "}" "").
Proof.
  unfold jsonPattern. rewrite test_Seq. split.
  - intros (s1 & s2 & -> & H1 & H2).
    apply test_Class in H1. destruct H1 as (c & -> & Hc).
    apply Ascii.eqb_eq in Hc. subst c.
    apply test_Seq in H2. destruct H2 as (t1 & t2 & -> & _ & H2).
    apply test_Class in H2. destruct H2 as (c & -> & Hc).
    apply Ascii.eqb_eq in Hc. subst c.
    exists t1. reflexivity.
  - intros (body & ->). exists (String "{" ""), (body ++ String "}" "").
    repeat split.
    apply test_Seq. exists body, (String "}" "").
    repeat split. apply test_Star_any.
Qed.

Lemma longest_Some (s : string) :
  forall r m, longest r s = Some m ->
    exists post, s = m ++ post /\ test r m = true.
Proof.
  induction s as [| c s IH]; intros r m; cbn [longest].
  - destruct (nullable r) eqn:E; [| discriminate].
    intros [= <-]. exists "". split; [reflexivity | exact E].
  - destruct (longest (deriv c r) s) as [m' |] eqn:El.
    + intros [= <-]. destruct (IH _ _ El) as (post & -> & H).
      exists post. split; [reflexivity | exact H].
    + destruct (nullable r) eqn:E; [| discriminate].
      intros [= <-]. exists (String c s). split; [reflexivity | exact E].
Qed.

Lemma longest_None (s : string) :
  forall r pre post, longest r s = None -> s = pre ++ post -> test r pre = false.
Proof.
  induction s as [| c s IH]; intros r pre post; cbn [longest].
  - destruct (nullable r) eqn:E; [discriminate |].
    intros _ H. destruct pre; [exact E | discriminate].
  - destruct (longest (deriv c r) s) as [m' |] eqn:El; [discriminate |].
    destruct (nullable r) eqn:E; [discriminate |].
    intros _ H. destruct pre as [| x pre]; [exact E |].
    cbn in H. injection H as <- ->. cbn. apply (IH _ pre post El eq_refl).
Qed.

Lemma longest_max (s : string) :
  forall r m pre post,
    longest r s = Some m -> s = pre ++ post -> test r pre = true ->
    (String.length pre <= String.length m)%nat.
Proof.
  induction s as [| c s IH]; intros r m pre post; cbn [longest].
  - intros _ H _. destruct pre; [cbn; lia | discriminate].
  - destruct (longest (deriv c r) s) as [m' |] eqn:El.
    + intros [= <-] H Ht. destruct pre as [| x pre]; [cbn; lia |].
      cbn in H. injection H as <- ->. cbn in Ht.
      cbn. apply le_n_S. apply (IH _ _ pre post El eq_refl Ht).
    + destruct (nullable r) eqn:E; [| discriminate].
      intros [= <-] H Ht. destruct pre as [| x pre]; [cbn; lia |].
      cbn in H. injection H as <- ->. cbn in Ht.
      rewrite (longest_None _ _ pre post El eq_refl) in Ht. discriminate.
Qed.

End RegexMeaning.

Section JsonMatch.

Local Open Scope string_scope.
Local Arguments String.append !_ _ / : simpl nomatch.

Lemma longest_jsonPattern (body post : string) :
  noChar "}" post = true ->
  longest jsonPattern (String "{" (body ++ String "}" post))
  = Some (String "{" (body ++ String "}" "")).
Proof.
  intros Hpost.
  set (m := String "{" (body ++ String "}" "")).
  assert (Hs : String "{" (body ++ String "}" post) = m ++ post).
  { unfold m. cbn. rewrite append_assoc. reflexivity. }
  assert (Hm : test jsonPattern m = true)
    by (apply test_jsonPattern; exists body; reflexivity).
  rewrite Hs.
  destruct (longest jsonPattern (m ++ post)) as [m0 |] eqn:El.
  - pose proof (longest_max _ _ _ m post El eq_refl Hm) as Hlen.
    destruct (longest_Some _ _ _ El) as (post0 & H0 & Hm0).
    destruct (append_eq_split m post m0 post0 H0 Hlen) as (e & -> & ->).
    destruct e as [| x e]; [rewrite append_nil_r; reflexivity | exfalso].
    apply test_jsonPattern in Hm0. destruct Hm0 as (b0 & Hb0).
    assert (Hlast : exists e', String x e = e' ++ String "}" "").
    { apply (append_last m (String x e) "}" (String "{" b0)).
      - cbn. cbn in Hb0. congruence.
      - discriminate. }
    destruct Hlast as (e' & He'). rewrite He', append_assoc in Hpost.
    unfold noChar in Hpost. rewrite allChars_append in Hpost.
    cbn in Hpost. rewrite andb_false_r in Hpost. discriminate.
  - rewrite (longest_None _ _ m post El eq_refl) in Hm. discriminate.
Qed.

Lemma longest_no_brace (c : ascii) (s : string) :
  isChar "{" c = false -> longest jsonPattern (String c s) = None.
Proof.
  intros Hc. destruct (longest jsonPattern (String c s)) as [m |] eqn:El;
    [exfalso | reflexivity].
  destruct (longest_Some _ _ _ El) as (post & Hs & Hm).
  apply test_jsonPattern in Hm. destruct Hm as (body & ->).
  cbn in Hs. injection Hs as -> _. discriminate.
Qed.

Lemma jsonMatch_extracts (pre body post : string) :
  noChar "{" pre = true -> noChar "}" post = true ->
  jsonMatch (pre ++ String "{" (body ++ String "}" post))
  = Some (String "{" (body ++ String "}" "")).
Proof.
  intros Hpre Hpost. unfold jsonMatch.
  induction pre as [| c pre IH].
  - cbn [append]. unfold matchFirst.
    rewrite longest_jsonPattern by exact Hpost.
    destruct body; reflexivity.
  - unfold noChar in Hpre. cbn [allChars] in Hpre.
    apply andb_true_iff in Hpre. destruct Hpre as [Hc Hpre].
    apply negb_true_iff in Hc.
    cbn [append matchFirst]. rewrite (longest_no_brace c _ Hc).
    apply IH, Hpre.
Qed.

(** Without a closing brace behind an opening one there is no match. *)
Lemma matchFirst_sound (s : string) :
  forall m, matchFirst jsonPattern s = Some m ->
    exists pre body post,
      s = pre ++ String "{" (body ++ String "}" post)
      /\ m = String "{" (body ++ String "}" "")
      /\ noChar "{" pre = true /\ noChar "}" post = true.
Proof.
  induction s as [| c s IH]; intros m H.
  - cbn in H. discriminate.
  - cbn [matchFirst] in H.
    destruct (longest jsonPattern (String c s)) as [m0 |] eqn:El.
    + injection H as ->.
      destruct (longest_Some _ _ _ El) as (post & Hs & Hm).
      pose proof Hm as Hm'. apply test_jsonPattern in Hm'.
      destruct Hm' as (body & ->).
      exists "", body, post. split; [| split; [reflexivity | split; [reflexivity |]]].
      * rewrite Hs. cbn. rewrite append_assoc. reflexivity.
      * destruct (noChar "}" post) eqn:Hp; [reflexivity | exfalso].
        destruct (noChar_false _ _ Hp) as (a & b & ->).
        set (m := String "{" (body ++ String "}" "")) in *.
        assert (Hlong : test jsonPattern (m ++ a ++ String "}" "") = true).
        { apply test_jsonPattern. exists (body ++ String "}" a).
          unfold m. cbn. rewrite !append_assoc. reflexivity. }
        assert (Hs' : String c s = (m ++ a ++ String "}" "") ++ b).
        { rewrite Hs, !append_assoc. reflexivity. }
        pose proof (longest_max _ _ _ _ _ El Hs' Hlong) as Hlen.
        rewrite !length_append in Hlen. cbn in Hlen. lia.
    + destruct (IH m H) as (pre & body & post & -> & -> & Hpre & Hpost).
      exists (String c pre), body, post.
      split; [reflexivity | split; [reflexivity | split; [| exact Hpost]]].
      unfold noChar. cbn [allChars]. fold (noChar "{" pre). rewrite Hpre.
      destruct (isChar "{" c) eqn:Hc; [exfalso | reflexivity].
      apply Ascii.eqb_eq in Hc. subst c.
      assert (Ht : test jsonPattern
                     (String "{" ((pre ++ String "{" body) ++ String "}" "")) = true)
        by (apply test_jsonPattern; eexists; reflexivity).
      rewrite (longest_None _ _ _ post El) in Ht; [discriminate |].
      cbn. rewrite !append_assoc. reflexivity.
Qed.

(** X19.  The match is the text from the first opening brace to the last
    closing brace: there is a match exactly when the text holds an
    opening brace with a closing brace somewhere behind it, and then
    what is in front of the first opening brace and behind the last
    closing brace is dropped, and nothing else. *)
Theorem jsonMatch_iff (s m : string) :
  jsonMatch s = Some m
  <-> exists pre body post,
        s = pre ++ String "{" (body ++ String "}" post)
        /\ m = String "{" (body ++ String "}" "")
        /\ noChar "{" pre = true /\ noChar "}" post = true.
Proof.
  split.
  - apply matchFirst_sound.
  - intros (pre & body & post & -> & -> & Hpre & Hpost).
    apply jsonMatch_extracts; assumption.
Qed.

Lemma jsonMatch_iff_witness :
  jsonMatch "Ecco i prezzi: {a:{b}} fine." = Some "{a:{b}}".
Proof.
  apply (proj2 (jsonMatch_iff "Ecco i prezzi: {a:{b}} fine." "{a:{b}}")).
  exists "Ecco i prezzi: ", "a:{b}", " fine.". repeat split.
Defined.

End JsonMatch.

Import Remote.

Section Requests.

Local Open Scope string_scope.

Context {J : Type} (JSON_parse : string -> option J) (getProp : string -> J -> J).

Lemma orText_not_empty (a : option string) (b : string) :
  String.eqb b "" = false -> String.eqb (orText a b) "" = false.
Proof.
  intros Hb. unfold orText. destruct a as [s |]; [| exact Hb].
  destruct (String.eqb s "") eqn:E; [exact Hb | exact E].
Qed.

Lemma orText_allChars (p : ascii -> bool) (s b : string) :
  allChars p s = true -> allChars p b = true ->
  allChars p (orText (Some s) b) = true.
Proof. intros Hs Hb. unfold orText. destruct (String.eqb s ""); assumption. Qed.

(** X20.  With errors in the form nothing is requested and nothing changes.
    Without, however the request ends, the advice shown afterwards is
    not empty and holds no asterisk, the request is no longer marked as
    running, and the state of the provincial prices is untouched. *)
Theorem fetchAiAdvice_settles (outcome : aiOutcome) (ui : @UiState J) :
  applyAll (fetchAiAdvice true outcome) ui = ui
  /\ (let ui' := applyAll (fetchAiAdvice false outcome) ui in
      loadingAi ui' = false
      /\ String.eqb (aiAdvice ui') "" = false
      /\ noChar "*" (aiAdvice ui') = true
      /\ provincialData ui' = provincialData ui
      /\ loadingProvince ui' = loadingProvince ui
      /\ locationError ui' = locationError ui
      /\ isProvincialCollapsed ui' = isProvincialCollapsed ui).
Proof.
  split; [reflexivity |].
  destruct outcome as [response |]; unfold fetchAiAdvice, applyAll;
    cbn [app fold_left applyUpdate aiAdvice loadingAi provincialData loadingProvince
         locationError isProvincialCollapsed].
  - repeat split.
    + apply orText_not_empty. reflexivity.
    + apply orText_allChars; [apply allChars_keepOnly | reflexivity].
  - repeat split.
Qed.

Lemma sourcesOf_length (chunks : option (list GroundingChunk)) :
  (length (sourcesOf chunks) <= 3)%nat.
Proof.
  unfold sourcesOf. destruct chunks as [cs |]; [| cbn; lia].
  rewrite length_firstn. lia.
Qed.

Lemma forallb_firstn {A : Type} (p : A -> bool) (n : nat) (l : list A) :
  forallb p l = true -> forallb p (firstn n l) = true.
Proof.
  revert n. induction l as [| x l IH]; intros n H; destruct n; try reflexivity.
  cbn in *. apply andb_true_iff in H. destruct H as [Hx Hl].
  rewrite Hx, (IH n Hl). reflexivity.
Qed.

Lemma sourcesOf_titles (chunks : option (list GroundingChunk)) :
  forallb (fun s => negb (String.eqb (title s) "")) (sourcesOf chunks) = true.
Proof.
  unfold sourcesOf. destruct chunks as [cs |]; [| reflexivity].
  apply forallb_firstn. apply forallb_forall. intros s Hs.
  apply in_map_iff in Hs. destruct Hs as (chunk & <- & _). cbn [title].
  rewrite orText_not_empty by reflexivity. reflexivity.
Qed.

(** X21.  However a request for the provincial prices ends, it is no longer
    marked as running and the panel is open.  Either it failed: a message
    that is not empty is shown and the prices shown before are kept.  Or
    it succeeded: no message is shown, and the new prices come with at
    most three sources, each with a title that is not empty. *)
Theorem fetchProvincialPrices_settles (geolocation : bool)
    (outcome : positionOutcome) (ui : UiState) :
  let ui' := applyAll (fetchProvincialPrices JSON_parse getProp geolocation outcome) ui in
  loadingProvince ui' = false
  /\ isProvincialCollapsed ui' = false
  /\ aiAdvice ui' = aiAdvice ui
  /\ loadingAi ui' = loadingAi ui
  /\ ((String.eqb (locationError ui') "" = false
       /\ provincialData ui' = provincialData ui)
      \/ (locationError ui' = ""
          /\ exists d, provincialData ui' = Some d
               /\ (length (sources d) <= 3)%nat
               /\ forallb (fun s => negb (String.eqb (title s) "")) (sources d)
                  = true)).
Proof.
  unfold fetchProvincialPrices.
  destruct geolocation; cbn [negb].
  - destruct outcome as [[response |] | code].
    + destruct (jsonMatch (orText (text response) "")) as [matched |].
      * destruct (JSON_parse matched) as [parsed |]; cbn.
        -- repeat split. right. split; [reflexivity |].
           eexists. split; [reflexivity |]. cbn [sources].
           split; [apply sourcesOf_length | apply sourcesOf_titles].
        -- repeat split. left. split; reflexivity.
      * cbn. repeat split. left. split; reflexivity.
    + cbn. repeat split. left. split; reflexivity.
    + cbn. repeat split. left. split; [| reflexivity].
      destruct (code =? 1)%Z; [reflexivity |].
      destruct (code =? 3)%Z; reflexivity.
  - cbn. repeat split. left. split; reflexivity.
Qed.

(** X22.  What a successful request stores.  When the text of the response
    holds an opening brace and, behind it, a closing brace, what lies
    from the first opening brace to the last closing brace is parsed,
    whatever surrounds it; if it parses, the province and the prices read
    from it are stored. *)
Theorem fetchProvincialPrices_stores (pre body post : string)
    (chunks : option (list GroundingChunk)) (parsed : J) (ui : UiState) :
  noChar "{" pre = true -> noChar "}" post = true ->
  JSON_parse (String "{" (body ++ String "}" "")) = Some parsed ->
  let response :=
    {| text := Some (pre ++ String "{" (body ++ String "}" post));
       groundingChunks := chunks |} in
  let ui' := applyAll (fetchProvincialPrices JSON_parse getProp true
                         (Located (Responded response))) ui in
  provincialData ui'
  = Some {| province := getProp "province" parsed;
            prices := getProp "prices" parsed;
            sources := sourcesOf chunks |}
  /\ locationError ui' = "".
Proof.
  intros Hpre Hpost Hparse response ui'. subst ui' response.
  unfold fetchProvincialPrices. cbn [negb text groundingChunks].
  assert (Htext : orText (Some (pre ++ String "{" (body ++ String "}" post))) ""
                  = pre ++ String "{" (body ++ String "}" post)).
  { unfold orText.
    destruct (String.eqb (pre ++ String "{" (body ++ String "}" post)) "") eqn:E;
      [| reflexivity].
    apply String.eqb_eq in E. rewrite E. reflexivity. }
  rewrite Htext, (jsonMatch_extracts pre body post Hpre Hpost), Hparse.
  split; reflexivity.
Qed.

End Requests.

Section RequestsExamples.

Local Open Scope string_scope.

Lemma fetchProvincialPrices_stores_witness :
  let parse := fun s : string => Some s in
  let get := fun (key : string) (j : string) => (key ++ j)%string in
  let response :=
    {| text := Some ("Ecco: " ++ String "{" ("x" ++ String "}" " fine"))%string;
       groundingChunks := None |} in
  let ui := mkUiState EmptyString false (@None (@ProvincialPrices string))
                      false EmptyString true in
  locationError (applyAll (fetchProvincialPrices parse get true
                             (Located (Responded response))) ui)
  = EmptyString.
Proof.
  exact (proj2 (fetchProvincialPrices_stores (fun s : string => Some s)
                  (fun (key : string) (j : string) => (key ++ j)%string)
                  "Ecco: " "x" " fine" None "{x}"
                  (mkUiState EmptyString false None false EmptyString true)
                  eq_refl eq_refl eq_refl)).
Defined.

End RequestsExamples.
